(** * money: event-sourcing persistence engine

    A shallow embedding of
      - fete/core/event.py        (event metaclass and by-name registry),
      - money/framework/aggregate.py (aggregate metaclass and replay),
      - money/storage/postgres.py (predicate simplifier and storage engine),
    followed by the properties established for them.

    Python exceptions are values of [exn]; a computation that may raise
    returns a [result].  Dictionaries keyed by names are [gmap]s; a
    dictionary whose iteration order matters is an association list. *)

From Stdlib Require Import ZArith Ascii String List Bool Lia.
From stdpp Require Import base option list gmap strings pretty sorting.

Set Warnings "-register-all".

Local Open Scope string_scope.
Local Open Scope Z_scope.
Local Open Scope list_scope.

(** ** Exceptions and results *)

(** The exception classes the three modules raise or let through.  The
    last three derive from [BaseException] only, so an
    [except Exception] clause does not catch them. *)
Inductive exn : Type :=
| TypeError (msg : string)
| ValueError (msg : string)
| KeyError (key : string)
| AttributeError (name : string)
| RuntimeError (msg : string)
| AssertionError
| DatabaseError (msg : string)
| HandlerError (msg : string)
| CancelledError
| KeyboardInterrupt
| GeneratorExit.

(** [isinstance(e, Exception)]. *)
Definition is_Exception (e : exn) : bool :=
  match e with
  | CancelledError | KeyboardInterrupt | GeneratorExit => false
  | _ => true
  end.

Inductive result (A : Type) : Type :=
| Ok (a : A)
| Raise (e : exn).
Arguments Ok {A} a.
Arguments Raise {A} e.

Definition bind {A B} (r : result A) (k : A -> result B) : result B :=
  match r with
  | Ok a => k a
  | Raise e => Raise e
  end.

Declare Scope result_scope.
Delimit Scope result_scope with result.
Notation "x <- r ;; k" := (bind r (fun x => k))
  (at level 100, r at next level, right associativity) : result_scope.
Local Open Scope result_scope.

(** A comprehension or loop whose body may raise: left to right, stopping
    at the first exception. *)
Fixpoint mapR {A B} (f : A -> result B) (l : list A) : result (list B) :=
  match l with
  | [] => Ok []
  | a :: l' => b <- f a ;; bs <- mapR f l' ;; Ok (b :: bs)
  end.

Fixpoint foldR {A B} (f : A -> B -> result A) (a : A) (l : list B) : result A :=
  match l with
  | [] => Ok a
  | b :: l' => a' <- f a b ;; foldR f a' l'
  end.

Definition is_Ok {A} (r : result A) : bool :=
  match r with Ok _ => true | Raise _ => false end.

(** ** Values *)

(** [datetime.datetime], by the two halves of its [isoformat()] text (the
    date, and the time of day with its UTC offset) and by the text of
    [astimezone(utc).isoformat()]. *)
Record datetime : Type := { dt_date : string; dt_time : string; dt_utc : string }.

(** [t.isoformat()]. *)
Definition isoformat (t : datetime) : string := dt_date t +:+ "T" +:+ dt_time t.

(** The Python values that reach the code: the four primitive scalar
    types, [datetime], [None], and an object of any other class, known by
    the name of its type and by its [str()].  A float is known by its
    [repr].  Lists and dictionaries as field values are not modelled. *)
Inductive value : Type :=
| VStr (s : string)
| VInt (n : Z)
| VFloat (repr : string)
| VBool (b : bool)
| VDatetime (t : datetime)
| VNone
| VOther (type_name : string) (str : string).

#[global] Instance datetime_eq_dec : EqDecision datetime.
Proof. solve_decision. Defined.
#[global] Instance value_eq_dec : EqDecision value.
Proof. solve_decision. Defined.

(** [type(val).__name__]. *)
Definition type_name (val : value) : string :=
  match val with
  | VStr _ => "str"
  | VInt _ => "int"
  | VFloat _ => "float"
  | VBool _ => "bool"
  | VDatetime _ => "datetime"
  | VNone => "NoneType"
  | VOther n _ => n
  end.


(** The mapping a schema-bound object exposes through [to_dict] and is
    rebuilt from: field name to value. *)
Abbreviation payload := (gmap string value).

(** ** fete/core/event.py *)

(** An event class: its name and the names of all its ancestors. *)
Record EventClass : Type := { ev_name : string; ev_ancestors : list string }.

(** An event instance: its class and its field values. *)
Record EventBase : Type := { ev_type : EventClass; ev_fields : payload }.

(** [isinstance(evt, cls)]; event classes are identified by name, which
    the registry keeps unique. *)
Definition isinstance (evt : EventBase) (cls : EventClass) : bool :=
  bool_decide (ev_name (ev_type evt) = ev_name cls)
  || bool_decide (ev_name cls ∈ ev_ancestors (ev_type evt)).

Module EventMeta.

(** [EventMeta.__by_name]. *)
Abbreviation by_name := (gmap string EventClass).

(** [EventMeta.__new__(cls, name, bases, attrs)], threading
    [__by_name]: the class is created and registered unless the name is
    taken. *)
Definition new (name : string) (bases : list EventClass) (reg : by_name)
  : result EventClass * by_name :=
  if bool_decide (name ∈ dom reg) then
    (Raise (TypeError ("duplicate definition for event " +:+ name)), reg)
  else
    let new_class :=
      {| ev_name := name;
         ev_ancestors := flat_map (fun b => ev_name b :: ev_ancestors b) bases |} in
    (Ok new_class, <[name := new_class]> reg).

(** [EventMeta.construct_named(name, args)]: the class registered under
    [name], instantiated with the keyword arguments [args].  The
    schema layer's constructor, which validates and converts the
    arguments into field values, is the parameter [schema_init]. *)
Definition construct_named (schema_init : EventClass -> payload -> result payload)
    (reg : by_name) (name : string) (args : payload) : result EventBase :=
  match reg !! name with
  | None => Raise (KeyError name)
  | Some cls =>
      fields <- schema_init cls args ;;
      Ok {| ev_type := cls; ev_fields := fields |}
  end.

End EventMeta.

(** ** money/framework/aggregate.py *)

(** The keys of the class body [attrs] that [AggregateMeta.__new__] reads
    or sets; absent keys are [None]. *)
Record agg_attrs : Type := {
  attr_agg_mixin : option bool;
  attr_agg_id : option string;
  attr_agg_name : option string;
  attr_agg_events : option (gmap string string)
}.

(** [dict.setdefault(key, default)] on one key: the value now bound. *)
Definition setdefault {A} (o : option A) (default : A) : A :=
  match o with
  | Some v => v
  | None => default
  end.

Module AggregateMeta.

(** [AggregateMeta.__new__(cls, name, bases, attrs)]: fills in the
    aggregate metadata of a non-mixin class and creates the class.  It
    consults no by-name table. *)
Definition new (name : string) (attrs : agg_attrs) : result (string * agg_attrs) :=
  let mixin := setdefault (attr_agg_mixin attrs) false in
  let attrs :=
    if negb mixin then
      {| attr_agg_mixin := Some mixin;
         attr_agg_id := Some (setdefault (attr_agg_id attrs) "id");
         attr_agg_name := Some (setdefault (attr_agg_name attrs) name);
         attr_agg_events := Some (setdefault (attr_agg_events attrs) ∅) |}
    else
      {| attr_agg_mixin := Some mixin;
         attr_agg_id := attr_agg_id attrs;
         attr_agg_name := attr_agg_name attrs;
         attr_agg_events := attr_agg_events attrs |} in
  Ok (name, attrs).

End AggregateMeta.

(** An event handler method: it mutates the instance's attributes and may
    raise. *)
Definition handler : Type := payload -> EventBase -> result payload.

(** A validated, non-mixin aggregate class. *)
Record AggregateClass : Type := {
  agg_class_name : string;
  agg_id : string;
  agg_events : gmap string string;
  agg_create : EventClass;
  agg_methods : gmap string handler
}.

(** An aggregate instance: its class and its [__dict__]. *)
Record AggregateBase : Type := { agg_type : AggregateClass; agg_dict : payload }.

Module Aggregate.

(** [cls.__new__(cls)]: the blank instance. *)
Definition blank (cls : AggregateClass) : AggregateBase :=
  {| agg_type := cls; agg_dict := ∅ |}.

(** [AggregateBase.apply_event]. *)
Definition apply_event (self : AggregateBase) (event : EventBase)
  : result AggregateBase :=
  let cls := agg_type self in
  match agg_events cls !! ev_name (ev_type event) with
  | None => Raise (KeyError (ev_name (ev_type event)))
  | Some handler_name =>
      match agg_methods cls !! handler_name with
      | None => Raise (AttributeError handler_name)
      | Some h =>
          d <- h (agg_dict self) event ;;
          Ok {| agg_type := cls; agg_dict := d |}
      end
  end.

(** [AggregateBase.from_events].  The first message formats the
    builtin [id], as the source does. *)
Definition from_events (cls : AggregateClass) (events : list EventBase)
  : result AggregateBase :=
  match events with
  | [] =>
      Raise (ValueError ("no " +:+ agg_class_name cls
                         +:+ " with id <built-in function id>"))
  | first :: _ =>
      if negb (isinstance first (agg_create cls)) then
        Raise (ValueError "first event must be creation event")
      else
        foldR apply_event (blank cls) events
  end.

Section Loader.
(** The store handle and the class's [load_events] entry point: for a
    list of ids, a dictionary from id to that id's events, in the
    dictionary's insertion order. *)
Context {Storage : Type}.
Variable load_events : Storage -> list value -> result (list (value * list EventBase)).



End Loader.

End Aggregate.

(** ** The predicate algebra *)

Module P.

(** Modelled from the spec: money/predicate.py is not among the
    sources.  The variants are those of the spec's data model, with the
    attributes the simplifier reads from them ([types], [fields],
    [expect], [limit], [lower], [upper], [options]).  A member of
    [Is.types] is a class, known by its [__name__], or another object,
    known by its [str()]. *)
Inductive type_ref : Type :=
| TypeObj (name : string)
| NonType (str : string).

Inductive FieldPredicate : Type :=
| Eq (expect : value)
| NotEq (expect : value)
| Less (limit : value)
| More (limit : value)
| LessEq (limit : value)
| MoreEq (limit : value)
| Between (lower upper : value)
| OneOf (options : list value).

Inductive Predicate : Type :=
| Is (types : list type_ref)
| Where (fields : list (string * FieldPredicate)).

(** The six comparison operators of the scalar variants. *)
Inductive comparison : Type := CEq | CNotEq | CLess | CMore | CLessEq | CMoreEq.

Section Call.
(** Modelled from the spec: how a scalar comparison decides on the
    value a record holds under a field name ([None] when the record
    has no such field) is left to [compare]. *)
Variable compare : comparison -> option value -> value -> bool.

Definition call_field (fpred : FieldPredicate) (stored : option value) : bool :=
  match fpred with
  | Eq expect => compare CEq stored expect
  | NotEq expect => compare CNotEq stored expect
  | Less limit => compare CLess stored limit
  | More limit => compare CMore stored limit
  | LessEq limit => compare CLessEq stored limit
  | MoreEq limit => compare CMoreEq stored limit
  | Between lower upper =>
      compare CMoreEq stored lower && compare CLessEq stored upper
  | OneOf options => existsb (compare CEq stored) options
  end.

Definition type_ref_name (t : type_ref) : string :=
  match t with
  | TypeObj name => name
  | NonType str => str
  end.

(** Modelled from the spec: a predicate applied in-process to a
    record of type [type_name] with fields [data]: type membership for
    [Is], the conjunction of the field predicates for [Where]. *)
Definition call (pred : Predicate) (type_name : string) (data : payload) : bool :=
  match pred with
  | Is types => existsb (fun t => bool_decide (type_ref_name t = type_name)) types
  | Where fields =>
      forallb (fun nf => call_field (snd nf) (data !! fst nf)) fields
  end.
End Call.

End P.

(** ** money/storage/postgres.py: the simplifier *)

(** A query parameter: a Python [str], or the [str] that
    [_pgjson.dumps(val)] returns, kept as the value it encodes. *)
Inductive param : Type :=
| PStr (s : string)
| PJson (val : value).

(** The triple every simplifier method returns. *)
Abbreviation SimplifiedPredicate :=
  (option P.Predicate * option string * option (list param))%type.

(** [fmt.format(arg)] for a format string with one replacement field:
    the first brace pair is replaced by [arg]. *)
Fixpoint format1 (fmt arg : string) : string :=
  match fmt with
  | EmptyString => EmptyString
  | String "{"%char (String "}"%char rest) => arg +:+ rest
  | String c rest => String c (format1 rest arg)
  end.

Definition dquote : string := String "034"%char EmptyString.

Module PostgreSQLSimplifier.

Record t : Type := {
  type_field : string;
  data_field : string;
  timestamp_convert : string
}.

Definition default_timestamp_convert : string :=
  "to_timestamp({}, 'YYYY-MM-DD" +:+ dquote +:+ "T" +:+ dquote
  +:+ "HH24:MI:SSTZH:TZM')".

(** [_PostgreSQLSimplifier.__init__]. *)
Definition init (type_field data_field : string) (timestamp_convert : option string) : t :=
  {| type_field := type_field;
     data_field := data_field;
     timestamp_convert :=
       match timestamp_convert with
       | Some c => c
       | None => default_timestamp_convert
       end |}.

Definition _ph (self : t) : string := "%s".

(** [isinstance(val, (str, int, float, bool))]. *)
Definition is_primitive (val : value) : bool :=
  match val with
  | VStr _ | VInt _ | VFloat _ | VBool _ => true
  | _ => false
  end.

Definition on_is (self : t) (types : list P.type_ref) : result SimplifiedPredicate :=
  let clause :=
    type_field self +:+ " IN ("
    +:+ String.concat ", " (map (fun _ => _ph self) types) +:+ ")" in
  let params :=
    map (fun t => match t with
                  | P.TypeObj name => PStr name
                  | P.NonType str => PStr str
                  end) types in
  Ok (None, Some clause, Some params).

Definition _smart_query (self : t) (field oper : string) (val : value)
  : result (string * list param) :=
  if is_primitive val then
    Ok (data_field self +:+ "->" +:+ _ph self +:+ " " +:+ oper +:+ " "
        +:+ _ph self +:+ "::jsonb",
        [PStr field; PJson val])
  else
    match val with
    | VDatetime d =>
        let field_as_timestamp_tz :=
          format1 (timestamp_convert self) (data_field self +:+ "->>" +:+ _ph self) in
        Ok (field_as_timestamp_tz +:+ " " +:+ oper +:+ " " +:+ _ph self
            +:+ "::timestamp",
            [PStr field; PStr (isoformat d)])
    | _ => Raise (RuntimeError ("unsupported value type " +:+ type_name val))
    end.

Definition on_compare (self : t) (field oper : string) (val : value)
  : result SimplifiedPredicate :=
  qp <- _smart_query self field oper val ;;
  Ok (None, Some (fst qp), Some (snd qp)).

Definition on_eq self field (expect : value) := on_compare self field "=" expect.
Definition on_not_eq self field (expect : value) := on_compare self field "<>" expect.
Definition on_less self field (limit : value) := on_compare self field "<" limit.
Definition on_more self field (limit : value) := on_compare self field ">" limit.
Definition on_less_eq self field (limit : value) := on_compare self field "<=" limit.
Definition on_more_eq self field (limit : value) := on_compare self field ">=" limit.

Definition on_between (self : t) (field : string) (lower upper : value)
  : result SimplifiedPredicate :=
  low <- _smart_query self field ">=" lower ;;
  hi <- _smart_query self field "<=" upper ;;
  Ok (None,
      Some ("(" +:+ fst low +:+ " AND " +:+ fst hi +:+ ")"),
      Some (snd low ++ snd hi)).

(** The loop of [on_one_of]: the fragments and parameters collected so
    far, extended option by option. *)
Fixpoint one_of_loop (self : t) (field : string) (options : list value)
    (exprs : list string) (params : list param)
  : result (list string * list param) :=
  match options with
  | [] => Ok (exprs, params)
  | opt :: rest =>
      oq <- _smart_query self field "=" opt ;;
      one_of_loop self field rest (exprs ++ [fst oq]) (params ++ snd oq)
  end.

Definition on_one_of (self : t) (field : string) (options : list value)
  : result SimplifiedPredicate :=
  ep <- one_of_loop self field options [] [] ;;
  Ok (None, Some ("(" +:+ String.concat " OR " (fst ep) +:+ ")"), Some (snd ep)).

(** Modelled from the spec: [visit_field_predicate] of
    money/storage/utils.py, not among the sources, dispatches on the
    variant to the method of the same name. *)
Definition visit_field_predicate (self : t) (name : string) (fpred : P.FieldPredicate)
  : result SimplifiedPredicate :=
  match fpred with
  | P.Eq expect => on_eq self name expect
  | P.NotEq expect => on_not_eq self name expect
  | P.Less limit => on_less self name limit
  | P.More limit => on_more self name limit
  | P.LessEq limit => on_less_eq self name limit
  | P.MoreEq limit => on_more_eq self name limit
  | P.Between lower upper => on_between self name lower upper
  | P.OneOf options => on_one_of self name options
  end.

(** The loop of [on_where], with its assertion. *)
Fixpoint where_loop (self : t) (fields : list (string * P.FieldPredicate))
    (exprs : list string) (params : list param)
  : result (list string * list param) :=
  match fields with
  | [] => Ok (exprs, params)
  | (name, fpred) :: rest =>
      r <- visit_field_predicate self name fpred ;;
      match r with
      | (None, Some clause, Some fparams) =>
          where_loop self rest (exprs ++ [clause]) (params ++ fparams)
      | _ => Raise AssertionError
      end
  end.

Definition on_where (self : t) (fields : list (string * P.FieldPredicate))
  : result SimplifiedPredicate :=
  ep <- where_loop self fields [] [] ;;
  Ok (None, Some ("(" +:+ String.concat " AND " (fst ep) +:+ ")"), Some (snd ep)).

(** Modelled from the spec: [visit_predicate] of
    money/storage/utils.py dispatches on the variant. *)
Definition visit_predicate (self : t) (pred : P.Predicate) : result SimplifiedPredicate :=
  match pred with
  | P.Is types => on_is self types
  | P.Where fields => on_where self fields
  end.

End PostgreSQLSimplifier.

(** ** The backend: how PostgreSQL reads the fragments *)

(** A WHERE condition as the simplifier spells it, placeholders unbound. *)
Inductive sql_expr : Type :=
| SqlIn (column : string) (n : nat)
| SqlJson (column oper : string)
| SqlTimestamp (convert column oper : string)
| SqlAnd (es : list sql_expr)
| SqlOr (es : list sql_expr).

(** The text of an expression. *)
Fixpoint render (e : sql_expr) : string :=
  match e with
  | SqlIn column n =>
      column +:+ " IN (" +:+ String.concat ", " (repeat "%s" n) +:+ ")"
  | SqlJson column oper =>
      column +:+ "->" +:+ "%s" +:+ " " +:+ oper +:+ " " +:+ "%s" +:+ "::jsonb"
  | SqlTimestamp convert column oper =>
      format1 convert (column +:+ "->>" +:+ "%s") +:+ " " +:+ oper +:+ " "
      +:+ "%s" +:+ "::timestamp"
  | SqlAnd es => "(" +:+ String.concat " AND " (map render es) +:+ ")"
  | SqlOr es => "(" +:+ String.concat " OR " (map render es) +:+ ")"
  end.

(** A condition with its placeholders bound to the parameters, as the
    driver sends it. *)
Inductive sql_cond : Type :=
| CIn (column : string) (names : list string)
| CJson (column field oper : string) (val : value)
| CTimestamp (convert column field oper iso : string)
| CAnd (cs : list sql_cond)
| COr (cs : list sql_cond).

Definition param_str (p : param) : option string :=
  match p with
  | PStr s => Some s
  | PJson _ => None
  end.

(** Binding is positional: each placeholder takes the next parameter.
    The result carries the parameters left over. *)
Fixpoint sql_bind (e : sql_expr) (ps : list param) : option (sql_cond * list param) :=
  match e with
  | SqlIn column n =>
      if bool_decide (n ≤ length ps)%nat then
        names ← mapM param_str (take n ps) ;
        Some (CIn column names, drop n ps)
      else None
  | SqlJson column oper =>
      match ps with
      | PStr field :: PJson val :: rest => Some (CJson column field oper val, rest)
      | _ => None
      end
  | SqlTimestamp convert column oper =>
      match ps with
      | PStr field :: PStr iso :: rest =>
          Some (CTimestamp convert column field oper iso, rest)
      | _ => None
      end
  | SqlAnd es =>
      '(cs, rest) ← (fix bind_all (es : list sql_expr) (ps : list param) :=
                       match es with
                       | [] => Some ([], ps)
                       | e :: es' =>
                           '(c, ps') ← sql_bind e ps ;
                           '(cs, ps'') ← bind_all es' ps' ;
                           Some (c :: cs, ps'')
                       end) es ps ;
      Some (CAnd cs, rest)
  | SqlOr es =>
      '(cs, rest) ← (fix bind_all (es : list sql_expr) (ps : list param) :=
                       match es with
                       | [] => Some ([], ps)
                       | e :: es' =>
                           '(c, ps') ← sql_bind e ps ;
                           '(cs, ps'') ← bind_all es' ps' ;
                           Some (c :: cs, ps'')
                       end) es ps ;
      Some (COr cs, rest)
  end.

(** What the backend is taken to do: how it reads the text of a WHERE
    clause, and how it compares a stored JSON field ([None] when the
    document has no such key) with a [::jsonb] or [::timestamp]
    parameter under an operator. *)
Record backend : Type := {
  pg_parse : string -> option sql_expr;
  pg_jsonb : string -> option value -> value -> bool;
  pg_timestamp : string -> string -> option value -> string -> bool
}.

(** A bound condition is accepted on a table whose tag and document
    columns are [type_col] and [data_col] when its columns exist and no
    list in it is empty. *)
Fixpoint sql_valid (type_col data_col : string) (c : sql_cond) : bool :=
  match c with
  | CIn column names =>
      bool_decide (column = type_col)
      && match names with [] => false | _ => true end
  | CJson column _ _ _ => bool_decide (column = data_col)
  | CTimestamp _ column _ _ _ => bool_decide (column = data_col)
  | CAnd cs =>
      match cs with [] => false | _ => forallb (sql_valid type_col data_col) cs end
  | COr cs =>
      match cs with [] => false | _ => forallb (sql_valid type_col data_col) cs end
  end.

(** Whether a row, with tag [row_type] and document [row_data], passes a
    bound condition. *)
Fixpoint sql_holds (pg : backend) (c : sql_cond) (row_type : string) (row_data : payload)
  : bool :=
  match c with
  | CIn _ names => existsb (fun n => bool_decide (n = row_type)) names
  | CJson _ field oper val => pg_jsonb pg oper (row_data !! field) val
  | CTimestamp convert _ field oper iso =>
      pg_timestamp pg convert oper (row_data !! field) iso
  | CAnd cs => forallb (fun c => sql_holds pg c row_type row_data) cs
  | COr cs => existsb (fun c => sql_holds pg c row_type row_data) cs
  end.

(** ** The database *)

Record event_row : Type := {
  er_sequence_num : Z;
  er_event_type : string;
  er_event_data : payload
}.

Record snapshot_row : Type := {
  sr_sequence_num : Z;
  sr_aggregate_id : string;
  sr_aggregate_type : string;
  sr_aggregate_data : payload
}.

(** The transactional content: the two tables ([None] until created) and
    whether the [fromisoformat] function exists. *)
Record tables : Type := {
  tbl_events : option (list event_row);
  tbl_snapshots : option (list snapshot_row);
  fn_fromisoformat : bool
}.

(** The statements the storage engine sends. *)
Inductive statement : Type :=
| BEGIN
| COMMIT
| ROLLBACK
| CREATE_EVENTS
| CREATE_SNAPSHOTS
| CREATE_EXTENSION
| CREATE_FUNCTION
| INSERT_EVENT (event_type : string) (event_data : payload)
| UPSERT_SNAPSHOT (aggregate_id aggregate_type : string) (aggregate_data : payload)
| SELECT_EVENTS (where_clause : option string) (params : option (list param))
| SELECT_SNAPSHOTS (where_clause : option string) (params : option (list param)).

(** The text sent for the statements whose text matters here; the DDL
    statements are named after what they create. *)
Definition sql_str (s : statement) : string :=
  match s with
  | BEGIN => "BEGIN;"
  | COMMIT => "COMMIT;"
  | ROLLBACK => "ROLLBACK;"
  | CREATE_EVENTS => "CREATE TABLE IF NOT EXISTS __events"
  | CREATE_SNAPSHOTS => "CREATE TABLE IF NOT EXISTS __snapshots"
  | CREATE_EXTENSION => "CREATE EXTENSION IF NOT EXISTS plpython3u;"
  | CREATE_FUNCTION => "CREATE OR REPLACE FUNCTION fromisoformat(raw text)"
  | INSERT_EVENT _ _ =>
      "INSERT INTO __events (event_type, event_data) values (%s, %s);"
  | UPSERT_SNAPSHOT _ _ _ =>
      "INSERT INTO __snapshots (aggregate_id, aggregate_type, aggregate_data)"
      +:+ " VALUES (%s, %s, %s) ON CONFLICT(aggregate_id) DO UPDATE SET"
      +:+ " aggregate_data=excluded.aggregate_data;"
  | SELECT_EVENTS where_clause _ =>
      "SELECT event_type, event_data from __events"
      +:+ match where_clause with
          | Some w => " WHERE " +:+ w
          | None => EmptyString
          end
      +:+ " ORDER BY sequence_num ASC"
  | SELECT_SNAPSHOTS where_clause _ =>
      "SELECT aggregate_type, aggregate_data from __snapshots"
      +:+ match where_clause with
          | Some w => " WHERE " +:+ w
          | None => EmptyString
          end
      +:+ " ORDER BY sequence_num ASC"
  end.

(** The database: the committed content, the content seen by the open
    transaction if there is one, the two BIGSERIAL sequences (which are
    not transactional), whether the plpython3u extension can be
    installed, and the statements executed so far. *)
Record database : Type := {
  committed : tables;
  transaction : option tables;
  events_seq : Z;
  snapshots_seq : Z;
  plpython3u : bool;
  executed : list statement
}.

Definition view (d : database) : tables :=
  match transaction d with
  | Some t => t
  | None => committed d
  end.

(** Writing: into the open transaction, or straight into the committed
    content outside one. *)
Definition set_view (t : tables) (d : database) : database :=
  match transaction d with
  | Some _ =>
      {| committed := committed d; transaction := Some t;
         events_seq := events_seq d; snapshots_seq := snapshots_seq d;
         plpython3u := plpython3u d; executed := executed d |}
  | None =>
      {| committed := t; transaction := None;
         events_seq := events_seq d; snapshots_seq := snapshots_seq d;
         plpython3u := plpython3u d; executed := executed d |}
  end.

(** ORDER BY sequence_num ASC, as a stable insertion sort on the key. *)
Fixpoint insert_by {A} (key : A -> Z) (x : A) (l : list A) : list A :=
  match l with
  | [] => [x]
  | y :: l' => if bool_decide (key x ≤ key y) then x :: l else y :: insert_by key x l'
  end.

Fixpoint order_by {A} (key : A -> Z) (l : list A) : list A :=
  match l with
  | [] => []
  | x :: l' => insert_by key x (order_by key l')
  end.

(** ON CONFLICT(aggregate_id) DO UPDATE SET aggregate_data: the row of
    that identity keeps its place, sequence number and type. *)
Definition upsert (seq : Z) (id typ : string) (data : payload) (rows : list snapshot_row)
  : list snapshot_row :=
  if existsb (fun r => bool_decide (sr_aggregate_id r = id)) rows then
    map (fun r =>
           if bool_decide (sr_aggregate_id r = id) then
             {| sr_sequence_num := sr_sequence_num r;
                sr_aggregate_id := sr_aggregate_id r;
                sr_aggregate_type := sr_aggregate_type r;
                sr_aggregate_data := data |}
           else r) rows
  else
    rows ++ [{| sr_sequence_num := seq; sr_aggregate_id := id;
                sr_aggregate_type := typ; sr_aggregate_data := data |}].

(** The rows a SELECT yields: two columns, tag and document. *)
Abbreviation row := (string * payload)%type.

(** The WHERE clause and parameters of a SELECT applied to the ordered
    rows of a table. *)
Definition select_where (pg : backend) (type_col data_col : string)
    (where_clause : option string) (params : option (list param)) (rows : list row)
  : result (list row) :=
  match where_clause with
  | None =>
      match params with
      | None | Some [] => Ok rows
      | Some _ => Raise (TypeError "not all arguments converted")
      end
  | Some clause =>
      match pg_parse pg clause with
      | None => Raise (DatabaseError "syntax error")
      | Some e =>
          match sql_bind e (default [] params) with
          | Some (c, []) =>
              if sql_valid type_col data_col c then
                Ok (List.filter (fun r => sql_holds pg c (fst r) (snd r)) rows)
              else Raise (DatabaseError "syntax error")
          | _ => Raise (TypeError "arguments do not match the placeholders")
          end
      end
  end.

Definition log_statement (s : statement) (d : database) : database :=
  {| committed := committed d; transaction := transaction d;
     events_seq := events_seq d; snapshots_seq := snapshots_seq d;
     plpython3u := plpython3u d; executed := executed d ++ [s] |}.

(** Executing one statement: the rows it yields, or the error it raises,
    and the database afterwards. *)
Definition execute_db (pg : backend) (s : statement) (d0 : database)
  : result (list row) * database :=
  let d := log_statement s d0 in
  let t := view d in
  match s with
  | BEGIN =>
      (Ok [],
       {| committed := committed d; transaction := Some t;
          events_seq := events_seq d; snapshots_seq := snapshots_seq d;
          plpython3u := plpython3u d; executed := executed d |})
  | COMMIT =>
      (Ok [],
       {| committed := t; transaction := None;
          events_seq := events_seq d; snapshots_seq := snapshots_seq d;
          plpython3u := plpython3u d; executed := executed d |})
  | ROLLBACK =>
      (Ok [],
       {| committed := committed d; transaction := None;
          events_seq := events_seq d; snapshots_seq := snapshots_seq d;
          plpython3u := plpython3u d; executed := executed d |})
  | CREATE_EVENTS =>
      (Ok [],
       set_view {| tbl_events := Some (default [] (tbl_events t));
                   tbl_snapshots := tbl_snapshots t;
                   fn_fromisoformat := fn_fromisoformat t |} d)
  | CREATE_SNAPSHOTS =>
      (Ok [],
       set_view {| tbl_events := tbl_events t;
                   tbl_snapshots := Some (default [] (tbl_snapshots t));
                   fn_fromisoformat := fn_fromisoformat t |} d)
  | CREATE_EXTENSION =>
      if plpython3u d then (Ok [], d)
      else (Raise (DatabaseError "extension plpython3u is not available"), d)
  | CREATE_FUNCTION =>
      (Ok [],
       set_view {| tbl_events := tbl_events t;
                   tbl_snapshots := tbl_snapshots t;
                   fn_fromisoformat := true |} d)
  | INSERT_EVENT event_type event_data =>
      match tbl_events t with
      | None => (Raise (DatabaseError "relation __events does not exist"), d)
      | Some rows =>
          let seq := events_seq d + 1 in
          let d' := set_view
                      {| tbl_events :=
                           Some (rows ++ [{| er_sequence_num := seq;
                                             er_event_type := event_type;
                                             er_event_data := event_data |}]);
                         tbl_snapshots := tbl_snapshots t;
                         fn_fromisoformat := fn_fromisoformat t |} d in
          (Ok [],
           {| committed := committed d'; transaction := transaction d';
              events_seq := seq; snapshots_seq := snapshots_seq d';
              plpython3u := plpython3u d'; executed := executed d' |})
      end
  | UPSERT_SNAPSHOT aggregate_id aggregate_type aggregate_data =>
      match tbl_snapshots t with
      | None => (Raise (DatabaseError "relation __snapshots does not exist"), d)
      | Some rows =>
          let seq := snapshots_seq d + 1 in
          let d' := set_view
                      {| tbl_events := tbl_events t;
                         tbl_snapshots :=
                           Some (upsert seq aggregate_id aggregate_type
                                   aggregate_data rows);
                         fn_fromisoformat := fn_fromisoformat t |} d in
          (Ok [],
           {| committed := committed d'; transaction := transaction d';
              events_seq := events_seq d'; snapshots_seq := seq;
              plpython3u := plpython3u d'; executed := executed d' |})
      end
  | SELECT_EVENTS where_clause params =>
      match tbl_events t with
      | None => (Raise (DatabaseError "relation __events does not exist"), d)
      | Some rows =>
          (select_where pg "event_type" "event_data" where_clause params
             (map (fun r => (er_event_type r, er_event_data r))
                  (order_by er_sequence_num rows)),
           d)
      end
  | SELECT_SNAPSHOTS where_clause params =>
      match tbl_snapshots t with
      | None => (Raise (DatabaseError "relation __snapshots does not exist"), d)
      | Some rows =>
          (select_where pg "aggregate_type" "aggregate_data" where_clause params
             (map (fun r => (sr_aggregate_type r, sr_aggregate_data r))
                  (order_by sr_sequence_num rows)),
           d)
      end
  end.

(** ** money/storage/postgres.py: the storage engine *)

Module pgjson.

(** [_pgjson.default(o)], reached for a value [json] cannot encode by
    itself. *)
Definition default (o : value) : result value :=
  match o with
  | VDatetime t => Ok (VStr (dt_utc t))
  | _ => Raise (TypeError ("Object of type " +:+ type_name o
                           +:+ " is not JSON serializable"))
  end.




End pgjson.

(** What the engine runs against: the backend, the event registry and
    the schema layer's event constructor, the by-name constructor of
    aggregates, and the comparison behind an in-process predicate. *)
Record env : Type := {
  env_pg : backend;
  env_by_name : gmap string EventClass;
  env_schema_init : EventClass -> payload -> result payload;
  env_aggregate_named : string -> payload -> result AggregateBase;
  env_compare : P.comparison -> option value -> value -> bool
}.

(** The engine's own fields: whether [__pool] is set, and
    [__timestamp_convert]. *)
Record storage : Type := {
  self_pool : bool;
  self_timestamp_convert : option string
}.

Record world : Type := { self : storage; db : database }.

(** A coroutine of the engine: it may raise, and it changes the engine
    and the database. *)
Definition M (A : Type) : Type := world -> result A * world.

Definition ret {A} (a : A) : M A := fun w => (Ok a, w).
Definition raise {A} (e : exn) : M A := fun w => (Raise e, w).
Definition lift {A} (r : result A) : M A := fun w => (r, w).
Definition bindM {A B} (m : M A) (k : A -> M B) : M B :=
  fun w =>
    match m w with
    | (Ok a, w') => k a w'
    | (Raise e, w') => (Raise e, w')
    end.

Notation "x <~ m ;; k" := (bindM m (fun x => k))
  (at level 100, m at next level, right associativity) : result_scope.

(** [try: body / except Exception as e: handler(e)]. *)
Definition try_except {A} (body : M A) (handler : exn -> M A) : M A :=
  fun w =>
    match body w with
    | (Ok a, w') => (Ok a, w')
    | (Raise e, w') => if is_Exception e then handler e w' else (Raise e, w')
    end.

(** [try: body / except Exception as e: handler(e) / else: orelse]. *)
Definition try_except_else {A B} (body : M A) (handler : exn -> M B) (orelse : A -> M B)
  : M B :=
  fun w =>
    match body w with
    | (Ok a, w') => orelse a w'
    | (Raise e, w') => if is_Exception e then handler e w' else (Raise e, w')
    end.

Module PostgreSQLStorage.

(** [PostgreSQLStorage.__init__]. *)
Definition init : storage :=
  {| self_pool := false; self_timestamp_convert := None |}.

Section Engine.
Variable E : env.

(** [await cur.execute(sql, params)]. *)
Definition execute (s : statement) : M (list row) :=
  fun w =>
    let (r, d) := execute_db (env_pg E) s (db w) in
    (r, {| self := self w; db := d |}).

Definition set_timestamp_convert (c : string) : M unit :=
  fun w =>
    (Ok tt, {| self := {| self_pool := self_pool (self w);
                          self_timestamp_convert := Some c |};
               db := db w |}).

Definition set_pool (b : bool) : M unit :=
  fun w =>
    (Ok tt, {| self := {| self_pool := b;
                          self_timestamp_convert :=
                            self_timestamp_convert (self w) |};
               db := db w |}).

(** [PostgreSQLStorage.__get_pool], one caller at a time. *)
Definition get_pool : M unit :=
  fun w =>
    if self_pool (self w) then (Ok tt, w)
    else
      (_ <~ execute BEGIN ;;
       _ <~ try_except
              (_ <~ execute CREATE_EVENTS ;;
               _ <~ execute CREATE_SNAPSHOTS ;;
               _ <~ try_except_else (execute CREATE_EXTENSION)
                      (fun err => ret tt)
                      (fun _ =>
                         _ <~ execute CREATE_FUNCTION ;;
                         set_timestamp_convert "fromisoformat({})") ;;
               _ <~ execute COMMIT ;;
               ret tt)
              (fun e => _ <~ execute ROLLBACK ;; raise e) ;;
       set_pool true) w.

(** [PostgreSQLStorage.get_cursor], applied to the body of the
    [async with] block. *)
Definition get_cursor {A} (body : M A) : M A :=
  _ <~ get_pool ;;
  _ <~ execute BEGIN ;;
  try_except
    (a <~ body ;; _ <~ execute COMMIT ;; ret a)
    (fun e => _ <~ execute ROLLBACK ;; raise e).

(** Modelled from the spec: [cast_simplified_predicate] of
    money/storage/utils.py only fixes the static type of the triple. *)
Definition cast_simplified_predicate (r : result SimplifiedPredicate)
  : result SimplifiedPredicate := r.

(** [PostgreSQLStorage.__simplify]. *)
Definition simplify (timestamp_convert : option string) (pred : P.Predicate)
    (type_field data_field : string) : result SimplifiedPredicate :=
  cast_simplified_predicate
    (PostgreSQLSimplifier.visit_predicate
       (PostgreSQLSimplifier.init type_field data_field timestamp_convert) pred).

(** [query is None or query(evt)]. *)
Definition passes (query : option P.Predicate) (type_name : string) (data : payload)
  : bool :=
  match query with
  | None => true
  | Some q => P.call (env_compare E) q type_name data
  end.

(** The [async for row in conn] loop of [load_events]. *)
Fixpoint load_events_rows (query : option P.Predicate) (rows : list row)
    (events : list EventBase) : result (list EventBase) :=
  match rows with
  | [] => Ok events
  | r :: rest =>
      evt <- EventMeta.construct_named (env_schema_init E) (env_by_name E)
               (fst r) (snd r) ;;
      if passes query (ev_name (ev_type evt)) (ev_fields evt) then
        load_events_rows query rest (events ++ [evt])
      else
        load_events_rows query rest events
  end.

(** The first half of both loaders: the residual predicate, the WHERE
    clause and the parameters. *)
Definition compile_query (query : option P.Predicate) (type_field data_field : string)
  : M SimplifiedPredicate :=
  match query with
  | None => ret (None, None, None)
  | Some q =>
      fun w =>
        lift (simplify (self_timestamp_convert (self w)) q type_field data_field) w
  end.

Definition load_events_body (query : option P.Predicate) : M (list EventBase) :=
  qwp <~ compile_query query "event_type" "event_data" ;;
  rows <~ execute (SELECT_EVENTS (snd (fst qwp)) (snd qwp)) ;;
  lift (load_events_rows (fst (fst qwp)) rows []).

(** [PostgreSQLStorage.load_events]. *)
Definition load_events (query : option P.Predicate) : M (list EventBase) :=
  get_cursor (load_events_body query).










(** [PostgreSQLStorage.close]. *)
Definition close : M unit :=
  fun w => if self_pool (self w) then set_pool false w else (Ok tt, w).
End Engine.

End PostgreSQLStorage.

(** ** Concurrent callers of [__get_pool] *)

(** asyncio runs a task without interruption from one [await] to the
    next, so several callers of [__get_pool] on one engine interleave at
    its suspension points only: waiting for the lock, [create_pool], and
    each statement of the bootstrap.  A caller that finds the lock free
    takes it and tests [__pool] in one step. *)
Module PoolRace.

(** Where a caller stands.  [Booting p k]: pool [p] is open and [k]
    statements of BEGIN, two CREATE TABLE, CREATE EXTENSION, CREATE
    FUNCTION have been executed. *)
Inductive pc : Type :=
| Waiting
| Creating
| Booting (p : nat) (k : nat)
| Returned (p : nat)
| Failed.

Record state : Type := {
  lock : bool;
  pool : option nat;
  created : nat;
  begun : nat;
  bootstrapped : nat;
  failures : nat;
  callers : list pc
}.

(** [n] callers on a fresh engine. *)
Definition init (n : nat) : state :=
  {| lock := false; pool := None; created := 0; begun := 0; bootstrapped := 0;
     failures := 0; callers := replicate n Waiting |}.

Inductive step : state -> state -> Prop :=
| step_enter_hit i p s :
    callers s !! i = Some Waiting -> lock s = false -> pool s = Some p ->
    step s {| lock := false; pool := pool s; created := created s;
              begun := begun s; bootstrapped := bootstrapped s;
              failures := failures s;
              callers := <[i := Returned p]> (callers s) |}
| step_enter_miss i s :
    callers s !! i = Some Waiting -> lock s = false -> pool s = None ->
    step s {| lock := true; pool := pool s; created := created s;
              begun := begun s; bootstrapped := bootstrapped s;
              failures := failures s;
              callers := <[i := Creating]> (callers s) |}
| step_create_pool i s :
    callers s !! i = Some Creating ->
    step s {| lock := lock s; pool := pool s; created := S (created s);
              begun := begun s; bootstrapped := bootstrapped s;
              failures := failures s;
              callers := <[i := Booting (created s) 0]> (callers s) |}
| step_create_pool_raises i s :
    callers s !! i = Some Creating ->
    step s {| lock := false; pool := pool s; created := created s;
              begun := begun s; bootstrapped := bootstrapped s;
              failures := S (failures s);
              callers := <[i := Failed]> (callers s) |}
| step_begin i p s :
    callers s !! i = Some (Booting p 0) ->
    step s {| lock := lock s; pool := pool s; created := created s;
              begun := S (begun s); bootstrapped := bootstrapped s;
              failures := failures s;
              callers := <[i := Booting p 1]> (callers s) |}
| step_statement i p k s :
    callers s !! i = Some (Booting p k) -> (1 ≤ k < 5)%nat ->
    step s {| lock := lock s; pool := pool s; created := created s;
              begun := begun s; bootstrapped := bootstrapped s;
              failures := failures s;
              callers := <[i := Booting p (S k)]> (callers s) |}
| step_extension_unavailable i p s :
    callers s !! i = Some (Booting p 3) ->
    step s {| lock := lock s; pool := pool s; created := created s;
              begun := begun s; bootstrapped := bootstrapped s;
              failures := failures s;
              callers := <[i := Booting p 5]> (callers s) |}
| step_statement_raises i p k s :
    callers s !! i = Some (Booting p k) ->
    step s {| lock := false; pool := pool s; created := created s;
              begun := begun s; bootstrapped := bootstrapped s;
              failures := S (failures s);
              callers := <[i := Failed]> (callers s) |}
| step_commit i p s :
    callers s !! i = Some (Booting p 5) ->
    step s {| lock := false; pool := Some p; created := created s;
              begun := begun s; bootstrapped := S (bootstrapped s);
              failures := failures s;
              callers := <[i := Returned p]> (callers s) |}.

(** The states some interleaving reaches. *)
Inductive reachable (n : nat) : state -> Prop :=
| reach_init : reachable n (init n)
| reach_step s s' : reachable n s -> step s s' -> reachable n s'.

(** A caller between taking the lock and releasing it. *)
Definition inside (c : pc) : bool :=
  match c with
  | Creating | Booting _ _ => true
  | _ => false
  end.

Definition booting (c : pc) : bool :=
  match c with
  | Booting _ _ => true
  | _ => false
  end.

Definition begun_by (c : pc) : bool :=
  match c with
  | Booting _ (S _) => true
  | _ => false
  end.

Definition count (f : pc -> bool) (l : list pc) : nat := length (List.filter f l).

(** What every reachable state satisfies.  At most one caller is between
    taking the lock and releasing it, and exactly then the lock is held;
    while a caller is there no pool is memoised; each pool created is
    being bootstrapped, is the memoised one, or belongs to a failed
    attempt, and likewise each bootstrap begun; the bootstrap has
    completed once exactly when a pool is memoised; and a caller that
    returned holds the memoised pool. *)
Record invariant (n : nat) (s : state) : Prop := {
  inv_callers : length (callers s) = n;
  inv_lock : count inside (callers s) = Nat.b2n (lock s);
  inv_pool : is_Some (pool s) -> count inside (callers s) = 0%nat;
  inv_created_lower :
    (count booting (callers s) + Nat.b2n (bool_decide (is_Some (pool s)))
     <= created s)%nat;
  inv_created_upper :
    (created s
     <= count booting (callers s) + Nat.b2n (bool_decide (is_Some (pool s)))
        + failures s)%nat;
  inv_begun_lower :
    (count begun_by (callers s) + Nat.b2n (bool_decide (is_Some (pool s)))
     <= begun s)%nat;
  inv_begun_upper :
    (begun s
     <= count begun_by (callers s) + Nat.b2n (bool_decide (is_Some (pool s)))
        + failures s)%nat;
  inv_bootstrapped : bootstrapped s = Nat.b2n (bool_decide (is_Some (pool s)));
  inv_returned : forall i p, callers s !! i = Some (Returned p) -> pool s = Some p
}.


End PoolRace.

(** ** Specification-side definitions *)

(** [replays cls d events d']: every event has a handler and the
    handlers, run in order from attributes [d], leave [d']. *)
Inductive replays (cls : AggregateClass) : payload -> list EventBase -> payload -> Prop :=
| replays_nil d : replays cls d [] d
| replays_cons d d' d'' event events handler_name h :
    agg_events cls !! ev_name (ev_type event) = Some handler_name ->
    agg_methods cls !! handler_name = Some h ->
    h d event = Ok d' ->
    replays cls d' events d'' ->
    replays cls d (event :: events) d''.

(** The sub-fragments a [Where] is assembled from: one clause and one
    parameter list per field, each the full lowering of that field. *)
Definition lowers_to (self : PostgreSQLSimplifier.t) (fields : list (string * P.FieldPredicate))
    (subs : list (string * list param)) : Prop :=
  Forall2 (fun nf sub =>
             PostgreSQLSimplifier.visit_field_predicate self nf.1 nf.2 = Ok (None, Some sub.1, Some sub.2))
          fields subs.

(** A world between two operations: no transaction is open, and an
    engine whose pool is set has its two tables. *)
Definition settled (w : world) : Prop :=
  transaction (db w) = None
  /\ (self_pool (self w) = true ->
      is_Some (tbl_events (committed (db w)))
      /\ is_Some (tbl_snapshots (committed (db w)))).

(** The committed rows of the two tables, none while a table is absent. *)
Definition events_log (w : world) : list event_row :=
  default [] (tbl_events (committed (db w))).

Definition snapshot_rows (w : world) : list snapshot_row :=
  default [] (tbl_snapshots (committed (db w))).


(** The rows a run of inserts adds to the log after sequence value
    [seq]. *)
Fixpoint appended_rows (seq : Z) (l : list (string * payload)) : list event_row :=
  match l with
  | [] => []
  | td :: l' =>
      {| er_sequence_num := seq + 1; er_event_type := td.1; er_event_data := td.2 |}
      :: appended_rows (seq + 1) l'
  end.

(** A log in insertion order: ascending sequence numbers, none beyond
    the sequence's last value. *)
Definition log_ok (seq : Z) (rows : list event_row) : Prop :=
  StronglySorted (fun a b => er_sequence_num a <= er_sequence_num b) rows
  /\ Forall (fun r => er_sequence_num r <= seq) rows.



(** The tag and document [save_events] stores for an event. *)
Definition stored (events : list EventBase) (docs : list payload) : list (string * payload) :=
  zip (map (fun e => ev_name (ev_type e)) events) docs.





(** What the first [__get_pool] leaves: both tables exist with the rows
    they had, the conversion function exists when the extension could
    be installed, and the statements of the bootstrap have been
    executed in order. *)
Definition bootstrapped_tables (t : tables) (extension : bool) : tables :=
  {| tbl_events := Some (default [] (tbl_events t));
     tbl_snapshots := Some (default [] (tbl_snapshots t));
     fn_fromisoformat := if extension then true else fn_fromisoformat t |}.

Definition bootstrap_statements (extension : bool) : list statement :=
  if extension
  then [BEGIN; CREATE_EVENTS; CREATE_SNAPSHOTS; CREATE_EXTENSION; CREATE_FUNCTION; COMMIT]
  else [BEGIN; CREATE_EVENTS; CREATE_SNAPSHOTS; CREATE_EXTENSION; COMMIT].

Definition after_bootstrap (w : world) : world :=
  {| self :=
       {| self_pool := true;
          self_timestamp_convert :=
            if plpython3u (db w) then Some "fromisoformat({})"
            else self_timestamp_convert (self w) |};
     db :=
       {| committed := bootstrapped_tables (view (db w)) (plpython3u (db w));
          transaction := None;
          events_seq := events_seq (db w);
          snapshots_seq := snapshots_seq (db w);
          plpython3u := plpython3u (db w);
          executed :=
            fold_left (fun l s => l ++ [s]) (bootstrap_statements (plpython3u (db w)))
              (executed (db w)) |} |}.

(** *** Class definition: the checks of [AggregateMeta.__init__] and the
    handler table *)

(** What [getattr(the_cls, "load_events", None)] finds. *)
Inductive load_events_attr : Type :=
| LoadMissing
| LoadAbstract
| LoadNotCallable
| LoadCallable.

(** The attributes of a new aggregate class the checks read:
    [__name__], [__agg_mixin__], [__agg_id__], the field names of
    [__schema__], [__agg_create__] if the class has one, [__agg_events__]
    keyed by event class name, and [load_events]. *)
Record class_definition : Type := {
  def_name : string;
  def_mixin : bool;
  def_agg_id : string;
  def_schema : list string;
  def_agg_create : option EventClass;
  def_agg_events : gmap string string;
  def_load_events : load_events_attr
}.

(** [AggregateDefinitionError(agg_name, problem)]. *)
Inductive definition_error : Type :=
| AggregateDefinitionError (agg_name problem : string).

(** [AggregateMeta._validate_aggregate_id]: the error it raises, if any. *)
Definition _validate_aggregate_id (the_cls : class_definition) : option definition_error :=
  if negb (negb (bool_decide (def_agg_id the_cls = EmptyString))
           && bool_decide (def_agg_id the_cls ∈ def_schema the_cls))
  then Some (AggregateDefinitionError (def_name the_cls)
               "must define an id field, or must specify __agg_id__")
  else None.

(** [AggregateMeta._validate_creation_event]. *)
Definition _validate_creation_event (the_cls : class_definition) : option definition_error :=
  match def_agg_create the_cls with
  | None =>
      Some (AggregateDefinitionError (def_name the_cls)
              "must specify a creation event in __agg_create__")
  | Some create =>
      if negb (bool_decide (ev_name create ∈ dom (def_agg_events the_cls)))
      then Some (AggregateDefinitionError (def_name the_cls)
                   ("must specify a handler for creation event " +:+ ev_name create))
      else None
  end.

(** [AggregateMeta._validate_load_events_method]. *)
Definition _validate_load_events_method (the_cls : class_definition)
  : option definition_error :=
  match def_load_events the_cls with
  | LoadMissing | LoadAbstract =>
      Some (AggregateDefinitionError (def_name the_cls)
              "must define a load_events class method")
  | LoadNotCallable =>
      Some (AggregateDefinitionError (def_name the_cls)
              "the load_events method must be callable")
  | LoadCallable => None
  end.

(** [AggregateMeta.__init__]: the three checks in order, skipped for a
    mixin; the first error stops the class definition. *)
Definition AggregateMeta_init (cls : class_definition) : option definition_error :=
  if negb (def_mixin cls) then
    match _validate_aggregate_id cls with
    | Some err => Some err
    | None =>
        match _validate_creation_event cls with
        | Some err => Some err
        | None => _validate_load_events_method cls
        end
    end
  else None.

(** [EventHandler.__set_name__] for every handler of a class body, in
    the order of the body: [owner.__agg_events__[evt_class] = name]. *)
Definition set_names (handlers : list (string * EventClass)) (agg_events : gmap string string)
  : gmap string string :=
  fold_left (fun m h => <[ev_name h.2 := h.1]> m) handlers agg_events.

(** *** The fragment of a predicate, as the backend reads it *)

(** The operator each comparison is compiled with. *)
Definition oper_of (c : P.comparison) : string :=
  match c with
  | P.CEq => "="
  | P.CNotEq => "<>"
  | P.CLess => "<"
  | P.CMore => ">"
  | P.CLessEq => "<="
  | P.CMoreEq => ">="
  end.

(** A value [_smart_query] compiles: a primitive scalar or a timestamp. *)
Definition supported (val : value) : bool :=
  PostgreSQLSimplifier.is_primitive val
  || match val with VDatetime _ => true | _ => false end.

(** One comparison of a field with a value: its expression, its
    parameters, and the condition once the parameters are bound. *)
Definition leaf_expr (self : PostgreSQLSimplifier.t) (c : P.comparison) (val : value)
  : sql_expr :=
  if PostgreSQLSimplifier.is_primitive val
  then SqlJson (PostgreSQLSimplifier.data_field self) (oper_of c)
  else SqlTimestamp (PostgreSQLSimplifier.timestamp_convert self)
         (PostgreSQLSimplifier.data_field self) (oper_of c).

Definition leaf_params (field : string) (val : value) : list param :=
  match val with
  | VDatetime d => [PStr field; PStr (isoformat d)]
  | _ => [PStr field; PJson val]
  end.

Definition leaf_cond (self : PostgreSQLSimplifier.t) (field : string) (c : P.comparison)
    (val : value) : sql_cond :=
  match val with
  | VDatetime d =>
      CTimestamp (PostgreSQLSimplifier.timestamp_convert self)
        (PostgreSQLSimplifier.data_field self) field (oper_of c) (isoformat d)
  | _ => CJson (PostgreSQLSimplifier.data_field self) field (oper_of c) val
  end.

Definition field_expr (self : PostgreSQLSimplifier.t) (fpred : P.FieldPredicate) : sql_expr :=
  match fpred with
  | P.Eq expect => leaf_expr self P.CEq expect
  | P.NotEq expect => leaf_expr self P.CNotEq expect
  | P.Less limit => leaf_expr self P.CLess limit
  | P.More limit => leaf_expr self P.CMore limit
  | P.LessEq limit => leaf_expr self P.CLessEq limit
  | P.MoreEq limit => leaf_expr self P.CMoreEq limit
  | P.Between lower upper =>
      SqlAnd [leaf_expr self P.CMoreEq lower; leaf_expr self P.CLessEq upper]
  | P.OneOf options => SqlOr (map (leaf_expr self P.CEq) options)
  end.

Definition field_params (field : string) (fpred : P.FieldPredicate) : list param :=
  match fpred with
  | P.Eq val | P.NotEq val | P.Less val | P.More val | P.LessEq val | P.MoreEq val =>
      leaf_params field val
  | P.Between lower upper => leaf_params field lower ++ leaf_params field upper
  | P.OneOf options => concat (map (leaf_params field) options)
  end.

Definition field_cond (self : PostgreSQLSimplifier.t) (field : string)
    (fpred : P.FieldPredicate) : sql_cond :=
  match fpred with
  | P.Eq expect => leaf_cond self field P.CEq expect
  | P.NotEq expect => leaf_cond self field P.CNotEq expect
  | P.Less limit => leaf_cond self field P.CLess limit
  | P.More limit => leaf_cond self field P.CMore limit
  | P.LessEq limit => leaf_cond self field P.CLessEq limit
  | P.MoreEq limit => leaf_cond self field P.CMoreEq limit
  | P.Between lower upper =>
      CAnd [leaf_cond self field P.CMoreEq lower; leaf_cond self field P.CLessEq upper]
  | P.OneOf options => COr (map (leaf_cond self field P.CEq) options)
  end.

Definition expr_of (self : PostgreSQLSimplifier.t) (pred : P.Predicate) : sql_expr :=
  match pred with
  | P.Is types => SqlIn (PostgreSQLSimplifier.type_field self) (length types)
  | P.Where fields => SqlAnd (map (fun nf => field_expr self nf.2) fields)
  end.

Definition params_of (pred : P.Predicate) : list param :=
  match pred with
  | P.Is types => map (fun t => PStr (P.type_ref_name t)) types
  | P.Where fields => concat (map (fun nf => field_params nf.1 nf.2) fields)
  end.

Definition cond_of (self : PostgreSQLSimplifier.t) (pred : P.Predicate) : sql_cond :=
  match pred with
  | P.Is types => CIn (PostgreSQLSimplifier.type_field self) (map P.type_ref_name types)
  | P.Where fields => CAnd (map (fun nf => field_cond self nf.1 nf.2) fields)
  end.

(** A predicate the simplifier compiles: every value it compares with is
    supported. *)
Definition field_supported (fpred : P.FieldPredicate) : bool :=
  match fpred with
  | P.Eq val | P.NotEq val | P.Less val | P.More val | P.LessEq val | P.MoreEq val =>
      supported val
  | P.Between lower upper => supported lower && supported upper
  | P.OneOf options => forallb supported options
  end.

Definition pred_supported (pred : P.Predicate) : bool :=
  match pred with
  | P.Is _ => true
  | P.Where fields => forallb (fun nf => field_supported nf.2) fields
  end.

(** A predicate none of whose lists is empty. *)
Definition field_nonempty (fpred : P.FieldPredicate) : bool :=
  match fpred with
  | P.OneOf [] => false
  | _ => true
  end.

Definition pred_nonempty (pred : P.Predicate) : bool :=
  match pred with
  | P.Is types => match types with [] => false | _ => true end
  | P.Where fields =>
      match fields with
      | [] => false
      | _ => forallb (fun nf => field_nonempty nf.2) fields
      end
  end.

(** The binding of a list of expressions, one after the other. *)
Fixpoint sql_bind_all (es : list sql_expr) (ps : list param)
  : option (list sql_cond * list param) :=
  match es with
  | [] => Some ([], ps)
  | e :: es' =>
      '(c, ps') ← sql_bind e ps ;
      '(cs, ps'') ← sql_bind_all es' ps' ;
      Some (c :: cs, ps'')
  end.

(** The backend compares as the in-process predicate does: a stored
    field with a primitive parameter under [::jsonb], and with a
    timestamp parameter under the conversion and [::timestamp]. *)
Definition agrees (pg : backend) (compare : P.comparison -> option value -> value -> bool)
  : Prop :=
  (forall c stored val,
      PostgreSQLSimplifier.is_primitive val = true ->
      pg_jsonb pg (oper_of c) stored val = compare c stored val)
  /\ (forall convert c stored d,
        pg_timestamp pg convert (oper_of c) stored (isoformat d)
        = compare c stored (VDatetime d)).

(** A row the registry and the schema layer rebuild as it is stored:
    the event has the row's tag as class name and the row's document as
    fields. *)
Definition decodes (E : env) (r : event_row) : Prop :=
  exists evt,
    EventMeta.construct_named (env_schema_init E) (env_by_name E)
      (er_event_type r) (er_event_data r) = Ok evt
    /\ ev_name (ev_type evt) = er_event_type r
    /\ ev_fields evt = er_event_data r.












(** ** A sample domain

    The account of the spec's example: created, then renamed. *)

Definition Created : EventClass :=
  {| ev_name := "Created"; ev_ancestors := ["EventBase"] |}.

Definition Renamed : EventClass :=
  {| ev_name := "Renamed"; ev_ancestors := ["EventBase"] |}.

Definition on_created : handler :=
  fun d event =>
    match ev_fields event !! "id" with
    | Some v => Ok (<["id" := v]> d)
    | None => Raise (AttributeError "id")
    end.

Definition on_renamed : handler :=
  fun d event =>
    match ev_fields event !! "name" with
    | Some v => Ok (<["name" := v]> d)
    | None => Raise (AttributeError "name")
    end.

Definition Account : AggregateClass :=
  {| agg_class_name := "Account";
     agg_id := "id";
     agg_events := <["Created" := "on_created"]> (<["Renamed" := "on_renamed"]> ∅);
     agg_create := Created;
     agg_methods := <["on_created" := on_created]> (<["on_renamed" := on_renamed]> ∅) |}.

Definition created_a1 : EventBase :=
  {| ev_type := Created; ev_fields := <["id" := VStr "a1"]> ∅ |}.

Definition renamed_a1 : EventBase :=
  {| ev_type := Renamed;
     ev_fields := <["id" := VStr "a1"]> (<["name" := VStr "X"]> ∅) |}.

Definition no_attrs : agg_attrs :=
  {| attr_agg_mixin := None; attr_agg_id := None; attr_agg_name := None;
     attr_agg_events := None |}.



(** A backend that reads no WHERE clause, and an environment over it in
    which the two sample event classes are registered and the schema
    layer takes the stored mapping as the field values. *)
Definition no_where_backend : backend :=
  {| pg_parse := fun _ => None;
     pg_jsonb := fun _ _ _ => false;
     pg_timestamp := fun _ _ _ _ => false |}.

Definition sample_registry : gmap string EventClass :=
  <["Created" := Created]> (<["Renamed" := Renamed]> ∅).

Definition sample_env (pg : backend) : env :=
  {| env_pg := pg;
     env_by_name := sample_registry;
     env_schema_init := fun _ args => Ok args;
     env_aggregate_named := fun name args =>
       if bool_decide (name = "Account")
       then Ok {| agg_type := Account; agg_dict := args |}
       else Raise (KeyError name);
     env_compare := fun _ _ _ => false |}.







(** An engine in use: the log holds the creation of the account a1. *)
Definition one_event_world : world :=
  {| self := {| self_pool := true; self_timestamp_convert := None |};
     db := {| committed :=
                {| tbl_events :=
                     Some [{| er_sequence_num := 1; er_event_type := "Created";
                              er_event_data := <["id" := VStr "a1"]> ∅ |}];
                   tbl_snapshots := Some [];
                   fn_fromisoformat := false |};
              transaction := None;
              events_seq := 1;
              snapshots_seq := 0;
              plpython3u := false;
              executed := [] |} |}.

(** A later version of the creation event, declared as its subclass, and
    an instance of it. *)
Definition CreatedV2 : EventClass :=
  {| ev_name := "CreatedV2"; ev_ancestors := ["Created"; "EventBase"] |}.

Definition created_v2_a1 : EventBase :=
  {| ev_type := CreatedV2; ev_fields := <["id" := VStr "a1"]> ∅ |}.

(** The definition of the sample aggregate as its metaclass sees it. *)
Definition Account_definition : class_definition :=
  {| def_name := "Account";
     def_mixin := false;
     def_agg_id := "id";
     def_schema := ["id"; "name"];
     def_agg_create := Some Created;
     def_agg_events := set_names [("on_created", Created); ("on_renamed", Renamed)] ∅;
     def_load_events := LoadCallable |}.

(** Events that carry an amount, a predicate on the amount, and a
    backend that reads the predicate's fragment and compares integers
    the way the in-process comparison below does. *)
Definition Deposited : EventClass :=
  {| ev_name := "Deposited"; ev_ancestors := ["EventBase"] |}.

Definition deposited (amount : Z) : EventBase :=
  {| ev_type := Deposited; ev_fields := <["amount" := VInt amount]> ∅ |}.

Definition between_10_20 : P.Predicate :=
  P.Where [("amount", P.Between (VInt 10) (VInt 20))].

Definition int_compare (c : P.comparison) (stored : option value) (val : value) : bool :=
  match stored, val with
  | Some (VInt a), VInt b =>
      match c with
      | P.CEq => bool_decide (a = b)
      | P.CNotEq => bool_decide (a <> b)
      | P.CLess => bool_decide (a < b)
      | P.CMore => bool_decide (b < a)
      | P.CLessEq => bool_decide (a <= b)
      | P.CMoreEq => bool_decide (b <= a)
      end
  | _, _ => false
  end.

Definition int_backend : backend :=
  {| pg_parse := fun clause =>
       let e := expr_of (PostgreSQLSimplifier.init "event_type" "event_data" None)
                  between_10_20 in
       if bool_decide (clause = render e) then Some e else None;
     pg_jsonb := fun oper stored val =>
       if bool_decide (oper = "=") then int_compare P.CEq stored val
       else if bool_decide (oper = "<>") then int_compare P.CNotEq stored val
       else if bool_decide (oper = "<") then int_compare P.CLess stored val
       else if bool_decide (oper = ">") then int_compare P.CMore stored val
       else if bool_decide (oper = "<=") then int_compare P.CLessEq stored val
       else if bool_decide (oper = ">=") then int_compare P.CMoreEq stored val
       else false;
     pg_timestamp := fun _ _ _ _ => false |}.

Definition int_env : env :=
  {| env_pg := int_backend;
     env_by_name := <["Deposited" := Deposited]> ∅;
     env_schema_init := fun _ args => Ok args;
     env_aggregate_named := fun name _ => Raise (KeyError name);
     env_compare := int_compare |}.

Definition deposits_world : world :=
  {| self := {| self_pool := true; self_timestamp_convert := None |};
     db := {| committed :=
                {| tbl_events :=
                     Some [{| er_sequence_num := 1; er_event_type := "Deposited";
                              er_event_data := <["amount" := VInt 5]> ∅ |};
                           {| er_sequence_num := 2; er_event_type := "Deposited";
                              er_event_data := <["amount" := VInt 15]> ∅ |};
                           {| er_sequence_num := 3; er_event_type := "Deposited";
                              er_event_data := <["amount" := VInt 25]> ∅ |}];
                   tbl_snapshots := Some [];
                   fn_fromisoformat := false |};
              transaction := None;
              events_seq := 3;
              snapshots_seq := 0;
              plpython3u := false;
              executed := [] |} |}.



(** * Properties *)

(** ** Results *)

Lemma bind_Ok {A B} (r : result A) (k : A -> result B) (b : B) :
  bind r k = Ok b -> exists a, r = Ok a /\ k a = Ok b.
Proof. destruct r as [a|e]; simpl; [eauto | discriminate]. Qed.




(** ** The event registry *)

Lemma EventMeta_new_taken name bases (reg : gmap string EventClass) :
  is_Some (reg !! name) ->
  EventMeta.new name bases reg
  = (Raise (TypeError ("duplicate definition for event " +:+ name)), reg).
Proof.
  intros H. unfold EventMeta.new.
  rewrite bool_decide_eq_true_2; [reflexivity | by apply elem_of_dom].
Qed.

Lemma EventMeta_new_Ok name bases (reg reg' : gmap string EventClass) c :
  EventMeta.new name bases reg = (Ok c, reg') ->
  reg !! name = None /\ reg' = <[name := c]> reg /\ ev_name c = name.
Proof.
  unfold EventMeta.new. case_bool_decide as Hin; [discriminate|].
  intros [= <- <-]. split; [|done].
  by apply not_elem_of_dom.
Qed.

Lemma EventMeta_new_keeps name bases (reg : gmap string EventClass) name' cls :
  reg !! name' = Some cls -> (EventMeta.new name bases reg).2 !! name' = Some cls.
Proof.
  intros H. unfold EventMeta.new. case_bool_decide as Hin; simpl; [exact H|].
  rewrite lookup_insert_ne; [exact H|].
  intros ->. apply Hin, elem_of_dom. eauto.
Qed.

(** ** Replay *)

Lemma foldR_app {A B} (f : A -> B -> result A) (a : A) (l1 l2 : list B) :
  foldR f a (l1 ++ l2) = (a' <- foldR f a l1 ;; foldR f a' l2).
Proof.
  revert a. induction l1 as [|b l1 IH]; intros a; simpl; [reflexivity|].
  destruct (f a b) as [a'|e]; simpl; [apply IH | reflexivity].
Qed.

Lemma apply_event_type self event self' :
  Aggregate.apply_event self event = Ok self' -> agg_type self' = agg_type self.
Proof.
  unfold Aggregate.apply_event.
  destruct (agg_events _ !! _); [|discriminate].
  destruct (agg_methods _ !! _) as [h|]; [|discriminate].
  destruct (h _ _); simpl; [|discriminate].
  by intros [= <-].
Qed.

Lemma foldR_apply_event_replays cls d events d' :
  replays cls d events d' ->
  foldR Aggregate.apply_event {| agg_type := cls; agg_dict := d |} events
  = Ok {| agg_type := cls; agg_dict := d' |}.
Proof.
  induction 1 as [|d d' d'' event events hn h Hn Hh Hd _ IH]; simpl; [reflexivity|].
  unfold Aggregate.apply_event at 1. simpl. rewrite Hn, Hh, Hd. simpl. exact IH.
Qed.

Lemma foldR_apply_event_Ok cls d events agg :
  foldR Aggregate.apply_event {| agg_type := cls; agg_dict := d |} events = Ok agg ->
  agg_type agg = cls /\ replays cls d events (agg_dict agg).
Proof.
  revert d. induction events as [|event events IH]; intros d; simpl.
  - intros [= <-]. split; [reflexivity | constructor].
  - unfold Aggregate.apply_event at 1. simpl.
    destruct (agg_events cls !! _) as [hn|] eqn:Hn; [|discriminate].
    destruct (agg_methods cls !! hn) as [h|] eqn:Hh; [|discriminate].
    destruct (h d event) as [d'|] eqn:Hd; simpl; [|discriminate].
    intros H. apply IH in H as [Ht Hr]. split; [exact Ht|].
    econstructor; eauto.
Qed.

(** C7 (as amended).  Declaring an event class under a name that is
    already registered fails with the duplicate-definition [TypeError],
    whichever of two same-named definitions comes second, and leaves the
    registry as it was; no declaration overwrites a binding made
    earlier.  [AggregateMeta.__new__] keeps no registry: it accepts any
    name, also a repeated one. *)
Theorem event_duplicate_definition
    (name : string) (bases1 bases2 : list EventClass)
    (reg reg' : gmap string EventClass) (c : EventClass)
    (Hfirst : EventMeta.new name bases1 reg = (Ok c, reg')) :
  EventMeta.new name bases2 reg'
  = (Raise (TypeError ("duplicate definition for event " +:+ name)), reg')
  /\ EventMeta.new name bases1 reg'
     = (Raise (TypeError ("duplicate definition for event " +:+ name)), reg')
  /\ reg' !! name = Some c
  /\ (forall name' bases' name'' cls,
        reg' !! name'' = Some cls ->
        (EventMeta.new name' bases' reg').2 !! name'' = Some cls)
  /\ (forall attrs1 attrs2,
        is_Ok (AggregateMeta.new name attrs1) = true
        /\ is_Ok (AggregateMeta.new name attrs2) = true).
Proof.
  apply EventMeta_new_Ok in Hfirst as (Hnone & -> & Hname).
  assert (Hc : (<[name := c]> reg : gmap string EventClass) !! name = Some c)
    by apply lookup_insert_eq.
  repeat split.
  - apply EventMeta_new_taken. eauto.
  - apply EventMeta_new_taken. eauto.
  - exact Hc.
  - intros name' bases' name'' cls H. by apply EventMeta_new_keeps.
Qed.

Lemma event_duplicate_definition_witness :
  EventMeta.new "Created" [] (<["Created" := Created]> ∅)
  = (Raise (TypeError "duplicate definition for event Created"),
     <["Created" := Created]> ∅).
Proof.
  apply (event_duplicate_definition "Created" [ {| ev_name := "EventBase";
                                                   ev_ancestors := [] |} ] [] ∅
           (<["Created" := Created]> ∅) Created).
  reflexivity.
Defined.

(** C7, the claim as stated fails: a second aggregate class of the same
    name is created like the first. *)
Lemma aggregate_duplicate_name_accepted :
  AggregateMeta.new "Account" no_attrs
  = Ok ("Account",
        {| attr_agg_mixin := Some false; attr_agg_id := Some "id";
           attr_agg_name := Some "Account"; attr_agg_events := Some ∅ |})
  /\ (let second := {| attr_agg_mixin := None; attr_agg_id := Some "uid";
                       attr_agg_name := None; attr_agg_events := None |} in
      AggregateMeta.new "Account" second
      = Ok ("Account",
            {| attr_agg_mixin := Some false; attr_agg_id := Some "uid";
               attr_agg_name := Some "Account"; attr_agg_events := Some ∅ |})).
Proof. split; reflexivity. Qed.

(** C3.  [from_events] raises [ValueError] on an empty list and when the
    first event is not an instance of the creation-event class;
    otherwise it folds every event through [apply_event] from the blank
    instance, and returns the aggregate the handlers leave. *)
Theorem from_events_replay (cls : AggregateClass) :
  (exists msg, Aggregate.from_events cls [] = Raise (ValueError msg))
  /\ (forall first rest,
        isinstance first (agg_create cls) = false ->
        exists msg, Aggregate.from_events cls (first :: rest) = Raise (ValueError msg))
  /\ (forall first rest,
        isinstance first (agg_create cls) = true ->
        Aggregate.from_events cls (first :: rest)
        = foldR Aggregate.apply_event (Aggregate.blank cls) (first :: rest))
  /\ (forall first rest d,
        isinstance first (agg_create cls) = true ->
        replays cls ∅ (first :: rest) d ->
        Aggregate.from_events cls (first :: rest)
        = Ok {| agg_type := cls; agg_dict := d |})
  /\ (forall events agg,
        Aggregate.from_events cls events = Ok agg ->
        (exists first rest,
            events = first :: rest /\ isinstance first (agg_create cls) = true)
        /\ agg_type agg = cls
        /\ replays cls ∅ events (agg_dict agg)).
Proof.
  split; [eexists; reflexivity|].
  split.
  { intros first rest H. unfold Aggregate.from_events. rewrite H. simpl. eauto. }
  split.
  { intros first rest H. unfold Aggregate.from_events. rewrite H. reflexivity. }
  split.
  { intros first rest d H Hr. unfold Aggregate.from_events. rewrite H.
    cbn [negb]. by apply foldR_apply_event_replays. }
  intros events agg. unfold Aggregate.from_events.
  destruct events as [|first rest]; [discriminate|].
  destruct (isinstance first (agg_create cls)) eqn:Hi; cbn [negb]; [|discriminate].
  intros H. apply foldR_apply_event_Ok in H as [Ht Hr]. eauto 6.
Qed.

Lemma from_events_replay_witness :
  Aggregate.from_events Account [created_a1; renamed_a1]
  = Ok {| agg_type := Account;
          agg_dict := <["name" := VStr "X"]> (<["id" := VStr "a1"]> ∅) |}.
Proof.
  apply (proj1 (proj2 (proj2 (proj2 (from_events_replay Account))))).
  - vm_compute. reflexivity.
  - eapply replays_cons with (handler_name := "on_created") (h := on_created);
      [vm_compute; reflexivity | vm_compute; reflexivity | reflexivity |].
    eapply replays_cons with (handler_name := "on_renamed") (h := on_renamed);
      [vm_compute; reflexivity | vm_compute; reflexivity | reflexivity |].
    apply replays_nil.
Defined.




(** ** The simplifier *)

Import PostgreSQLSimplifier.

Lemma smart_query_unsupported self field oper val :
  is_primitive val = false -> (forall d, val <> VDatetime d) ->
  _smart_query self field oper val
  = Raise (RuntimeError ("unsupported value type " +:+ type_name val)).
Proof.
  intros Hp Hd. unfold _smart_query. rewrite Hp.
  destruct val; try reflexivity. by destruct (Hd t0).
Qed.

Lemma smart_query_Raise self field oper val e :
  _smart_query self field oper val = Raise e -> exists msg, e = RuntimeError msg.
Proof.
  unfold _smart_query. destruct (is_primitive val); [discriminate|].
  destruct val; intros [= <-]; eauto.
Qed.

Lemma on_compare_shape self field oper val r :
  on_compare self field oper val = Ok r ->
  exists clause ps, r = (None, Some clause, Some ps).
Proof.
  unfold on_compare. intros H. apply bind_Ok in H as (qp & _ & [= <-]). eauto.
Qed.

Lemma on_compare_Raise self field oper val e :
  on_compare self field oper val = Raise e -> exists msg, e = RuntimeError msg.
Proof.
  unfold on_compare.
  destruct (_smart_query self field oper val) eqn:Hq; simpl; [discriminate|].
  intros [= <-]. by eapply smart_query_Raise.
Qed.

Lemma one_of_loop_Raise self field options exprs params e :
  one_of_loop self field options exprs params = Raise e ->
  exists msg, e = RuntimeError msg.
Proof.
  revert exprs params. induction options as [|opt rest IH]; intros exprs params; simpl.
  - discriminate.
  - destruct (_smart_query self field "=" opt) eqn:Hq; simpl.
    + apply IH.
    + intros [= <-]. by eapply smart_query_Raise.
Qed.

Lemma visit_field_predicate_shape self name fpred r :
  visit_field_predicate self name fpred = Ok r ->
  exists clause ps, r = (None, Some clause, Some ps).
Proof.
  destruct fpred; simpl; try apply on_compare_shape.
  - unfold on_between. intros H.
    apply bind_Ok in H as (low & _ & H). apply bind_Ok in H as (hi & _ & [= <-]). eauto.
  - unfold on_one_of. intros H. apply bind_Ok in H as (ep & _ & [= <-]). eauto.
Qed.

Lemma visit_field_predicate_Raise self name fpred e :
  visit_field_predicate self name fpred = Raise e -> exists msg, e = RuntimeError msg.
Proof.
  destruct fpred; simpl; try apply on_compare_Raise.
  - unfold on_between.
    destruct (_smart_query self name ">=" lower) eqn:Hl; simpl.
    + destruct (_smart_query self name "<=" upper) eqn:Hu; simpl; [discriminate|].
      intros [= <-]. by eapply smart_query_Raise.
    + intros [= <-]. by eapply smart_query_Raise.
  - unfold on_one_of.
    destruct (one_of_loop self name options [] []) eqn:Ho; simpl; [discriminate|].
    intros [= <-]. by eapply one_of_loop_Raise.
Qed.

Lemma where_loop_Ok self fields exprs params subs :
  lowers_to self fields subs ->
  where_loop self fields exprs params
  = Ok (exprs ++ map fst subs, params ++ concat (map snd subs)).
Proof.
  intros H. revert exprs params.
  induction H as [|[name fpred] [clause ps] fields subs Hv _ IH]; intros exprs params.
  - simpl. by rewrite !app_nil_r.
  - simpl in *. rewrite Hv. simpl. rewrite IH.
    by rewrite <- !app_assoc.
Qed.

Lemma where_loop_inv self fields exprs params :
  (exists subs, lowers_to self fields subs)
  \/ (exists msg, where_loop self fields exprs params = Raise (RuntimeError msg)).
Proof.
  revert exprs params. induction fields as [|[name fpred] fields IH]; intros exprs params.
  - left. exists []. constructor.
  - simpl. destruct (visit_field_predicate self name fpred) as [r|e] eqn:Hv.
    + destruct (visit_field_predicate_shape _ _ _ _ Hv) as (clause & ps & ->). simpl.
      destruct (IH (exprs ++ [clause]) (params ++ ps)) as [[subs Hs]|[msg Hm]].
      * left. exists ((clause, ps) :: subs). constructor; [exact Hv | exact Hs].
      * right. eauto.
    + right. destruct (visit_field_predicate_Raise _ _ _ _ Hv) as [msg ->]. simpl. eauto.
Qed.

Lemma lowers_to_unique self fields subs1 subs2 :
  lowers_to self fields subs1 -> lowers_to self fields subs2 -> subs1 = subs2.
Proof.
  intros H. revert subs2.
  induction H as [|nf [c1 p1] fields subs1 Hv _ IH]; intros subs2 H2.
  - by inversion H2.
  - inversion H2 as [|? [c2 p2] ? subs2' Hv2 H2']; subst. simpl in *.
    rewrite Hv in Hv2. injection Hv2 as <- <-. f_equal. by apply IH.
Qed.

(** C8.  A scalar comparison against a value that is neither a primitive
    scalar nor a timestamp does not compile: [_smart_query], each of the
    six comparison methods, and a [Where] over such a comparison raise
    the unsupported-value error; none returns the comparison as a
    residual. *)
Theorem unsupported_value_raises
    (self : PostgreSQLSimplifier.t) (field : string) (val : value)
    (Hprimitive : is_primitive val = false)
    (Htimestamp : forall d, val <> VDatetime d) :
  let err := RuntimeError ("unsupported value type " +:+ type_name val) in
  (forall oper, _smart_query self field oper val = Raise err)
  /\ on_eq self field val = Raise err
  /\ on_not_eq self field val = Raise err
  /\ on_less self field val = Raise err
  /\ on_more self field val = Raise err
  /\ on_less_eq self field val = Raise err
  /\ on_more_eq self field val = Raise err
  /\ (forall fpred,
        fpred ∈ [P.Eq val; P.NotEq val; P.Less val; P.More val;
                 P.LessEq val; P.MoreEq val] ->
        visit_field_predicate self field fpred = Raise err
        /\ visit_predicate self (P.Where [(field, fpred)]) = Raise err).
Proof.
  intros err.
  assert (Hq : forall oper, _smart_query self field oper val = Raise err)
    by (intros oper; by apply smart_query_unsupported).
  assert (Hc : forall oper, on_compare self field oper val = Raise err)
    by (intros oper; unfold on_compare; by rewrite Hq).
  repeat split; try apply Hq; try apply Hc.
  - set_unfold in H.
    destruct H as [->|[->|[->|[->|[->|[->|[]]]]]]]; simpl; apply Hc.
  - set_unfold in H.
    destruct H as [->|[->|[->|[->|[->|[->|[]]]]]]];
      unfold visit_predicate, on_where, where_loop, visit_field_predicate,
        on_eq, on_not_eq, on_less, on_more, on_less_eq, on_more_eq;
      rewrite Hc; reflexivity.
Qed.

Lemma unsupported_value_raises_witness :
  visit_predicate (init "event_type" "event_data" None)
    (P.Where [("owner", P.Eq VNone)])
  = Raise (RuntimeError "unsupported value type NoneType").
Proof.
  apply (unsupported_value_raises (init "event_type" "event_data" None) "owner" VNone
           eq_refl).
  - intros d. discriminate.
  - set_unfold. left. reflexivity.
Defined.

(** C9.  Every field sub-predicate that compiles lowers fully: no
    residual, a fragment and a parameter list.  So the assertion of
    [on_where] never fails; [on_where] either raises the
    unsupported-value error of a sub-predicate or returns, with no
    residual, the AND-conjunction of the sub-fragments and their
    parameters in field order. *)
Theorem where_fully_lowers
    (self : PostgreSQLSimplifier.t) (fields : list (string * P.FieldPredicate)) :
  (forall name fpred r,
      visit_field_predicate self name fpred = Ok r ->
      exists clause ps, r = (None, Some clause, Some ps))
  /\ on_where self fields <> Raise AssertionError
  /\ (forall e, on_where self fields = Raise e -> exists msg, e = RuntimeError msg)
  /\ (forall subs,
        lowers_to self fields subs ->
        on_where self fields
        = Ok (None,
              Some ("(" +:+ String.concat " AND " (map fst subs) +:+ ")"),
              Some (concat (map snd subs))))
  /\ (forall r,
        on_where self fields = Ok r ->
        exists subs,
          lowers_to self fields subs
          /\ r = (None,
                  Some ("(" +:+ String.concat " AND " (map fst subs) +:+ ")"),
                  Some (concat (map snd subs)))).
Proof.
  split; [apply visit_field_predicate_shape|].
  assert (Hok : forall subs,
             lowers_to self fields subs ->
             on_where self fields
             = Ok (None,
                   Some ("(" +:+ String.concat " AND " (map fst subs) +:+ ")"),
                   Some (concat (map snd subs)))).
  { intros subs H. unfold on_where. rewrite (where_loop_Ok _ _ [] [] _ H). reflexivity. }
  assert (Hcases : (exists subs, lowers_to self fields subs)
                   \/ exists msg, on_where self fields = Raise (RuntimeError msg)).
  { destruct (where_loop_inv self fields [] []) as [H|[msg H]]; [by left|].
    right. exists msg. unfold on_where. rewrite H. reflexivity. }
  split; [|split; [|split; [exact Hok|]]].
  - destruct Hcases as [[subs H]|[msg H]].
    + rewrite (Hok _ H). discriminate.
    + rewrite H. discriminate.
  - intros e He. destruct Hcases as [[subs H]|[msg H]].
    + rewrite (Hok _ H) in He. discriminate.
    + rewrite H in He. injection He as <-. eauto.
  - intros r Hr. destruct Hcases as [[subs H]|[msg H]].
    + exists subs. split; [exact H|]. rewrite (Hok _ H) in Hr. by injection Hr as <-.
    + rewrite H in Hr. discriminate.
Qed.

Lemma where_fully_lowers_witness :
  on_where (init "event_type" "event_data" None)
    [("amount", P.Between (VInt 10) (VInt 20)); ("owner", P.Eq (VStr "ann"))]
  = Ok (None,
        Some ("((event_data->%s >= %s::jsonb AND event_data->%s <= %s::jsonb)"
              +:+ " AND event_data->%s = %s::jsonb)"),
        Some [PStr "amount"; PJson (VInt 10); PStr "amount"; PJson (VInt 20);
              PStr "owner"; PJson (VStr "ann")]).
Proof.
  apply (proj1 (proj2 (proj2 (proj2
           (where_fully_lowers (init "event_type" "event_data" None)
              [("amount", P.Between (VInt 10) (VInt 20));
               ("owner", P.Eq (VStr "ann"))]))))
           [("(event_data->%s >= %s::jsonb AND event_data->%s <= %s::jsonb)",
             [PStr "amount"; PJson (VInt 10); PStr "amount"; PJson (VInt 20)]);
            ("event_data->%s = %s::jsonb", [PStr "owner"; PJson (VStr "ann")])]).
  repeat constructor.
Defined.

(** ** The storage engine *)

Lemma get_pool_ready E w :
  self_pool (self w) = true -> PostgreSQLStorage.get_pool E w = (Ok tt, w).
Proof. intros H. unfold PostgreSQLStorage.get_pool. by rewrite H. Qed.

Lemma get_pool_first E w :
  self_pool (self w) = false ->
  PostgreSQLStorage.get_pool E w = (Ok tt, after_bootstrap w).
Proof.
  destruct w as [[p conv] [c t es ss pl ex]]. cbn [self self_pool]. intros ->.
  destruct pl; reflexivity.
Qed.

Lemma get_pool_settled E w :
  settled w ->
  exists w0,
    PostgreSQLStorage.get_pool E w = (Ok tt, w0)
    /\ self_pool (self w0) = true
    /\ transaction (db w0) = None
    /\ tbl_events (committed (db w0)) = Some (events_log w)
    /\ tbl_snapshots (committed (db w0)) = Some (snapshot_rows w)
    /\ events_seq (db w0) = events_seq (db w)
    /\ snapshots_seq (db w0) = snapshots_seq (db w)
    /\ (self_pool (self w) = true -> w0 = w).
Proof.
  intros [Htx Htab]. unfold events_log, snapshot_rows.
  destruct (self_pool (self w)) eqn:Hp.
  - exists w. rewrite get_pool_ready by done.
    destruct (Htab eq_refl) as [[re Hre] [rs Hrs]]. rewrite Hre, Hrs. done.
  - exists (after_bootstrap w). rewrite get_pool_first by done.
    unfold after_bootstrap, bootstrapped_tables, view. rewrite Htx.
    cbn [self db self_pool transaction committed tbl_events tbl_snapshots
         events_seq snapshots_seq].
    repeat split; done.
Qed.


Lemma execute_BEGIN E w :
  PostgreSQLStorage.execute E BEGIN w
  = (Ok [],
     {| self := self w;
        db := {| committed := committed (db w);
                 transaction := Some (view (db w));
                 events_seq := events_seq (db w);
                 snapshots_seq := snapshots_seq (db w);
                 plpython3u := plpython3u (db w);
                 executed := executed (db w) ++ [BEGIN] |} |}).
Proof. reflexivity. Qed.


Lemma execute_ROLLBACK E w :
  PostgreSQLStorage.execute E ROLLBACK w
  = (Ok [],
     {| self := self w;
        db := {| committed := committed (db w);
                 transaction := None;
                 events_seq := events_seq (db w);
                 snapshots_seq := snapshots_seq (db w);
                 plpython3u := plpython3u (db w);
                 executed := executed (db w) ++ [ROLLBACK] |} |}).
Proof. reflexivity. Qed.

(** [get_cursor] unfolded along the outcome of its body. *)
Lemma get_cursor_unfold E {A} (body : M A) w w0 :
  PostgreSQLStorage.get_pool E w = (Ok tt, w0) ->
  PostgreSQLStorage.get_cursor E body w
  = match body (PostgreSQLStorage.execute E BEGIN w0).2 with
    | (Ok a, w2) => (Ok a, (PostgreSQLStorage.execute E COMMIT w2).2)
    | (Raise e, w2) =>
        if is_Exception e
        then (Raise e, (PostgreSQLStorage.execute E ROLLBACK w2).2)
        else (Raise e, w2)
    end.
Proof.
  intros Hp. unfold PostgreSQLStorage.get_cursor, bindM at 1. rewrite Hp.
  unfold bindM at 1. rewrite execute_BEGIN. cbn [snd].
  unfold try_except, bindM.
  destruct (body _) as [[a|e] w2]; [reflexivity|].
  destruct (is_Exception e); reflexivity.
Qed.













(** ** The event log *)

Lemma insert_by_head {A} (key : A -> Z) (x : A) (l : list A) :
  Forall (fun y => key x <= key y) l -> insert_by key x l = x :: l.
Proof.
  destruct l as [|y l]; [reflexivity|]. intros H.
  apply Forall_cons_1 in H as [Hy _]. simpl.
  by rewrite bool_decide_eq_true_2.
Qed.

Lemma order_by_sorted {A} (key : A -> Z) (l : list A) :
  StronglySorted (fun a b => key a <= key b) l -> order_by key l = l.
Proof.
  induction 1 as [|x l Hs IH Hx]; [reflexivity|].
  simpl. rewrite IH. by apply insert_by_head.
Qed.



Lemma appended_rows_app seq l1 l2 :
  appended_rows seq (l1 ++ l2)
  = appended_rows seq l1 ++ appended_rows (seq + Z.of_nat (length l1)) l2.
Proof.
  revert seq. induction l1 as [|td l1 IH]; intros seq; simpl.
  - by rewrite Z.add_0_r.
  - rewrite IH. do 3 f_equal. lia.
Qed.




Lemma execute_SELECT_EVENTS E w rows :
  tbl_events (view (db w)) = Some rows ->
  log_ok (events_seq (db w)) rows ->
  exists w',
    PostgreSQLStorage.execute E (SELECT_EVENTS None None) w
    = (Ok (map (fun r => (er_event_type r, er_event_data r)) rows), w')
    /\ self w' = self w
    /\ committed (db w') = committed (db w)
    /\ transaction (db w') = transaction (db w).
Proof.
  intros Hr [Hs _]. destruct w as [sf [c tx es ss pl ex]].
  unfold PostgreSQLStorage.execute, execute_db, log_statement, view in *. simpl in *.
  rewrite Hr. rewrite (order_by_sorted _ _ Hs). simpl. eauto.
Qed.

Lemma load_events_rows_None E rows acc :
  PostgreSQLStorage.load_events_rows E None rows acc
  = (evs <- mapR (fun r => EventMeta.construct_named (env_schema_init E)
                             (env_by_name E) r.1 r.2) rows ;;
     Ok (acc ++ evs)).
Proof.
  revert acc. induction rows as [|r rows IH]; intros acc; simpl.
  - by rewrite app_nil_r.
  - destruct (EventMeta.construct_named _ _ _ _) as [evt|e]; simpl; [|reflexivity].
    rewrite IH. destruct (mapR _ rows); simpl; [|reflexivity].
    by rewrite <- app_assoc.
Qed.







(** ** The snapshot table *)

















(** ** Concurrent first-time pool acquisition *)

Module PoolRaceFacts.
Import PoolRace.

Lemma count_insert (f : pc -> bool) (l : list pc) (i : nat) (c c' : pc) :
  l !! i = Some c ->
  (count f (<[i := c']> l) + Nat.b2n (f c) = count f l + Nat.b2n (f c'))%nat.
Proof.
  unfold count. revert i. induction l as [|x l IH]; intros i Hi; [done|].
  destruct i as [|i]; simpl in *.
  - injection Hi as ->. destruct (f c), (f c'); simpl; lia.
  - specialize (IH i Hi). destruct (f x); simpl; lia.
Qed.

Lemma count_pos (f : pc -> bool) (l : list pc) (i : nat) (c : pc) :
  l !! i = Some c -> f c = true -> (1 <= count f l)%nat.
Proof.
  unfold count. revert i. induction l as [|x l IH]; intros i Hi Hf; [done|].
  destruct i as [|i]; simpl in *.
  - injection Hi as ->. rewrite Hf. simpl. lia.
  - specialize (IH i Hi Hf). destruct (f x); simpl; lia.
Qed.

Lemma count_le (f g : pc -> bool) (l : list pc) :
  (forall c, f c = true -> g c = true) -> (count f l <= count g l)%nat.
Proof.
  intros Hfg. unfold count. induction l as [|x l IH]; simpl; [lia|].
  destruct (f x) eqn:Hf.
  - rewrite (Hfg x Hf). simpl. lia.
  - destruct (g x); simpl; lia.
Qed.

Lemma count_replicate_Waiting (f : pc -> bool) (n : nat) :
  f Waiting = false -> count f (replicate n Waiting) = 0%nat.
Proof.
  intros Hf. unfold count. induction n as [|n IH]; simpl; [done|].
  by rewrite Hf.
Qed.

Lemma booting_inside c : booting c = true -> inside c = true.
Proof. by destruct c. Qed.

Lemma begun_by_booting c : begun_by c = true -> booting c = true.
Proof. by destruct c. Qed.

Ltac no_pool :=
  let x := fresh "x" in
  let Hx := fresh "Hx" in
  intros [x Hx]; discriminate Hx.

Lemma invariant_init n : invariant n (init n).
Proof.
  split; simpl; rewrite ?count_replicate_Waiting by done;
    first [done | no_pool | apply length_replicate | idtac].
  intros i p Hi. apply lookup_replicate in Hi as [Hi _]. discriminate.
Qed.

(** The three counts after one caller moves from [c] to [c']. *)
Ltac moved Hi c' :=
  pose proof (count_insert inside _ _ _ c' Hi) as Hcount_inside;
  pose proof (count_insert booting _ _ _ c' Hi) as Hcount_booting;
  pose proof (count_insert begun_by _ _ _ c' Hi) as Hcount_begun;
  simpl in Hcount_inside, Hcount_booting, Hcount_begun.

(** A caller that had returned before the step still holds the memoised
    pool. *)
Ltac returned_before Hret :=
  let j := fresh "j" in
  let q := fresh "q" in
  let Hj := fresh "Hj" in
  intros j q Hj;
  apply list_lookup_insert_Some in Hj as [(_ & Hj & _)|[_ Hj]];
  [first [discriminate Hj | injection Hj as <-; done]
  |first [solve [eauto] | apply Hret in Hj; congruence]].

Ltac no_pool_yet Hpool Hi :=
  match goal with
  | |- pool ?s = None =>
      pose proof (count_pos inside _ _ _ Hi eq_refl);
      destruct (pool s); [|done];
      specialize (Hpool (mk_is_Some _ _ eq_refl)); lia
  end.

Ltac lock_held :=
  match goal with
  | |- lock ?s = true => destruct (lock s); simpl in *; [done | lia]
  end.

Ltac preserved Hret :=
  simpl in *;
  split; simpl; rewrite ?length_insert; simpl;
  first [done | lia | no_pool | (intros; lia) | returned_before Hret | idtac].

Lemma invariant_step n s s' : invariant n s -> step s s' -> invariant n s'.
Proof.
  intros [Hlen Hlock Hpool Hcl Hcu Hbl Hbu Hboot Hret] Hstep.
  assert (Hbi := count_le booting inside (callers s) booting_inside).
  assert (Hgb := count_le begun_by booting (callers s) begun_by_booting).
  destruct Hstep as
    [i p s Hi Hl Hp | i s Hi Hl Hp | i s Hi | i s Hi | i p s Hi
    | i p k s Hi Hk | i p s Hi | i p k s Hi | i p s Hi].
  - (* the pool is there: return it *)
    moved Hi (Returned p). rewrite Hl in *.
    preserved Hret.
  - (* no pool yet: keep the lock and create one *)
    moved Hi Creating. rewrite Hl, Hp in *. simpl in *.
    preserved Hret.
  - (* create_pool returns *)
    moved Hi (Booting (created s) 0).
    assert (Hnone : pool s = None) by no_pool_yet Hpool Hi.
    rewrite Hnone in *. simpl in *.
    preserved Hret.
  - (* create_pool raises *)
    moved Hi Failed.
    assert (Hnone : pool s = None) by no_pool_yet Hpool Hi.
    rewrite Hnone in *. simpl in *.
    assert (lock s = true) as Hheld by lock_held.
    rewrite Hheld in *. simpl in *.
    preserved Hret.
  - (* BEGIN *)
    moved Hi (Booting p 1).
    assert (Hnone : pool s = None) by no_pool_yet Hpool Hi.
    rewrite Hnone in *. simpl in *.
    preserved Hret.
  - (* a statement of the bootstrap *)
    moved Hi (Booting p (S k)).
    assert (Hnone : pool s = None) by no_pool_yet Hpool Hi.
    rewrite Hnone in *. simpl in *.
    destruct k as [|k]; [lia|]. simpl in *.
    preserved Hret.
  - (* the extension is unavailable: logged, the function is skipped *)
    moved Hi (Booting p 5).
    assert (Hnone : pool s = None) by no_pool_yet Hpool Hi.
    rewrite Hnone in *. simpl in *.
    preserved Hret.
  - (* a statement raises: rollback, the pool is not memoised *)
    moved Hi Failed.
    assert (Hnone : pool s = None) by no_pool_yet Hpool Hi.
    rewrite Hnone in *. simpl in *.
    assert (lock s = true) as Hheld by lock_held.
    rewrite Hheld in *. simpl in *.
    assert (Nat.b2n (begun_by (Booting p k)) <= 1)%nat by (destruct k; simpl; lia).
    preserved Hret.
  - (* COMMIT: memoise the pool, release the lock *)
    moved Hi (Returned p).
    assert (Hnone : pool s = None) by no_pool_yet Hpool Hi.
    rewrite Hnone in *. simpl in *.
    assert (lock s = true) as Hheld by lock_held.
    rewrite Hheld in *. simpl in *.
    preserved Hret.
Qed.

Lemma invariant_reachable n s : reachable n s -> invariant n s.
Proof.
  induction 1 as [|s s' _ IH Hstep]; [apply invariant_init|].
  by eapply invariant_step.
Qed.

End PoolRaceFacts.

(** C10.  However the callers of [__get_pool] on one engine interleave,
    as long as no attempt fails: at most one pool is created and the
    bootstrap is begun and completed at most once; as soon as any caller
    has returned, exactly one pool has been created, the bootstrap has
    run exactly once, and every caller that returned holds that pool.
    At most one caller is past the lock at a time, and once the pool is
    memoised the lock is free between steps: later callers only test
    for the pool. *)
Theorem pool_created_once (n : nat) (s : PoolRace.state)
    (Hreach : PoolRace.reachable n s)
    (Hok : PoolRace.failures s = 0%nat) :
  (PoolRace.created s <= 1)%nat
  /\ (PoolRace.begun s <= 1)%nat
  /\ (PoolRace.bootstrapped s <= 1)%nat
  /\ (forall i p,
        PoolRace.callers s !! i = Some (PoolRace.Returned p) ->
        PoolRace.pool s = Some p
        /\ PoolRace.created s = 1%nat
        /\ PoolRace.begun s = 1%nat
        /\ PoolRace.bootstrapped s = 1%nat)
  /\ PoolRace.count PoolRace.inside (PoolRace.callers s)
     = Nat.b2n (PoolRace.lock s)
  /\ (is_Some (PoolRace.pool s) ->
      PoolRace.lock s = false
      /\ PoolRace.count PoolRace.inside (PoolRace.callers s) = 0%nat)
  /\ length (PoolRace.callers s) = n.
Proof.
  destruct (PoolRaceFacts.invariant_reachable n s Hreach)
    as [Hlen Hlock Hpool Hcl Hcu Hbl Hbu Hboot Hret].
  pose proof (PoolRaceFacts.count_le PoolRace.booting PoolRace.inside
                (PoolRace.callers s) PoolRaceFacts.booting_inside) as Hbi.
  pose proof (PoolRaceFacts.count_le PoolRace.begun_by PoolRace.booting
                (PoolRace.callers s) PoolRaceFacts.begun_by_booting) as Hgb.
  rewrite Hok in *.
  assert (Hsome : is_Some (PoolRace.pool s) ->
                  PoolRace.lock s = false
                  /\ PoolRace.count PoolRace.inside (PoolRace.callers s) = 0%nat).
  { intros Hs. specialize (Hpool Hs). split; [|exact Hpool].
    rewrite Hpool in Hlock. destruct (PoolRace.lock s); [discriminate | reflexivity]. }
  assert (Hone : forall p, PoolRace.pool s = Some p ->
                 PoolRace.created s = 1%nat /\ PoolRace.begun s = 1%nat
                 /\ PoolRace.bootstrapped s = 1%nat).
  { intros p Hp. destruct (Hsome (mk_is_Some _ _ Hp)) as [_ Hin].
    rewrite Hp in *. simpl in *. lia. }
  assert (Hle : (PoolRace.created s <= 1 /\ PoolRace.begun s <= 1
                 /\ PoolRace.bootstrapped s <= 1)%nat).
  { destruct (PoolRace.pool s) as [p|] eqn:Hp.
    - destruct (Hone p eq_refl) as (-> & -> & ->). lia.
    - simpl in *. destruct (PoolRace.lock s); simpl in *; lia. }
  destruct Hle as (Hc & Hb & Hbs).
  split; [exact Hc|]. split; [exact Hb|]. split; [exact Hbs|].
  split; [|split; [exact Hlock|split; [exact Hsome|exact Hlen]]].
  intros i p Hi. specialize (Hret i p Hi). split; [exact Hret|]. by apply (Hone p).
Qed.

Ltac advance R step_rule :=
  let R' := fresh "R" in
  eassert (R' : PoolRace.reachable 2 _);
  [eapply PoolRace.reach_step; [exact R | eapply step_rule; first [reflexivity | lia]]|];
  clear R; rename R' into R; cbv in R.

Lemma pool_created_once_witness :
  exists s,
    PoolRace.reachable 2 s
    /\ PoolRace.callers s = [PoolRace.Returned 0; PoolRace.Returned 0]
    /\ PoolRace.created s = 1%nat
    /\ PoolRace.bootstrapped s = 1%nat.
Proof.
  pose proof (PoolRace.reach_init 2) as R.
  advance R (PoolRace.step_enter_miss 1%nat).
  advance R (PoolRace.step_create_pool 1%nat).
  advance R (PoolRace.step_begin 1%nat 0%nat).
  advance R (PoolRace.step_statement 1%nat 0%nat 1%nat).
  advance R (PoolRace.step_statement 1%nat 0%nat 2%nat).
  advance R (PoolRace.step_extension_unavailable 1%nat 0%nat).
  advance R (PoolRace.step_commit 1%nat 0%nat).
  advance R (PoolRace.step_enter_hit 0%nat 0%nat).
  eexists. split; [exact R|]. split; [reflexivity|].
  destruct (pool_created_once 2 _ R eq_refl) as (_ & _ & _ & H & _).
  destruct (H 0%nat 0%nat eq_refl) as (_ & Hc & _ & Hb).
  split; [exact Hc | exact Hb].
Defined.

(** * Further properties of the code *)

(** ** Pool set-up and tear-down *)




(** X3.  [close] is idempotent and touches nothing in the database; an
    engine that is closed and used again runs the bootstrap anew, which
    keeps every row of both tables. *)
Theorem close_then_reopen (E : env) (w : world) (Hsettled : settled w) :
  exists w1 w2,
    PostgreSQLStorage.close w = (Ok tt, w1)
    /\ PostgreSQLStorage.close w1 = (Ok tt, w1)
    /\ db w1 = db w
    /\ self_pool (self w1) = false
    /\ PostgreSQLStorage.get_pool E w1 = (Ok tt, w2)
    /\ self_pool (self w2) = true
    /\ events_log w2 = events_log w
    /\ snapshot_rows w2 = snapshot_rows w
    /\ events_seq (db w2) = events_seq (db w)
    /\ snapshots_seq (db w2) = snapshots_seq (db w).
Proof.
  destruct Hsettled as [Htx Htab].
  assert (Hclose : exists w1,
             PostgreSQLStorage.close w = (Ok tt, w1)
             /\ db w1 = db w /\ self_pool (self w1) = false).
  { unfold PostgreSQLStorage.close. destruct (self_pool (self w)) eqn:Hp.
    - eexists. split; [reflexivity|]. done.
    - exists w. done. }
  destruct Hclose as (w1 & Hc & Hdb & Hp1).
  assert (Hs1 : settled w1).
  { split; [by rewrite Hdb|]. rewrite Hp1. discriminate. }
  destruct (get_pool_settled E w1 Hs1) as (w2 & Hg & Hp2 & _ & He & Hs & Hes & Hss & _).
  exists w1, w2. split; [exact Hc|]. split.
  { unfold PostgreSQLStorage.close. by rewrite Hp1. }
  split; [exact Hdb|]. split; [exact Hp1|]. split; [exact Hg|]. split; [exact Hp2|].
  unfold events_log, snapshot_rows in *. rewrite He, Hs, Hes, Hss, Hdb. done.
Qed.

Lemma close_then_reopen_witness :
  exists w1 w2,
    PostgreSQLStorage.close one_event_world = (Ok tt, w1)
    /\ PostgreSQLStorage.get_pool (sample_env no_where_backend) w1 = (Ok tt, w2)
    /\ events_log w2 = events_log one_event_world.
Proof.
  destruct (close_then_reopen (sample_env no_where_backend) one_event_world)
    as (w1 & w2 & Hc & _ & _ & _ & Hg & _ & He & _).
  - split; [reflexivity|]. intros _. split; eexists; reflexivity.
  - exists w1, w2. split; [exact Hc|]. split; [exact Hg | exact He].
Defined.

(** ** Appending to the log *)







Lemma load_events_None_result E w :
  settled w ->
  log_ok (events_seq (db w)) (events_log w) ->
  (PostgreSQLStorage.load_events E None w).1
  = mapR (fun r => EventMeta.construct_named (env_schema_init E) (env_by_name E) r.1 r.2)
         (map (fun r => (er_event_type r, er_event_data r)) (events_log w)).
Proof.
  intros Hw Hlog.
  destruct (get_pool_settled E w Hw) as (w0 & Hp & Hpool & Htx & He & Hs & Hes & Hss & _).
  unfold PostgreSQLStorage.load_events. rewrite (get_cursor_unfold E _ w w0 Hp).
  rewrite execute_BEGIN. cbn [snd].
  unfold PostgreSQLStorage.load_events_body, PostgreSQLStorage.compile_query.
  unfold bindM at 1. unfold ret at 1. cbn [fst snd]. unfold bindM at 1.
  match goal with
  | |- context [PostgreSQLStorage.execute E (SELECT_EVENTS None None) ?w1] =>
      destruct (execute_SELECT_EVENTS E w1 (events_log w)) as (w' & Hx & _)
  end.
  { simpl. unfold view. by rewrite Htx. }
  { simpl. by rewrite Hes. }
  rewrite Hx. unfold lift. rewrite load_events_rows_None.
  destruct (mapR _ _) as [evs|e]; simpl; [reflexivity|].
  destruct (is_Exception e); reflexivity.
Qed.



(** ** Loading and replaying aggregates *)




Lemma foldR_apply_event_blank cls events :
  foldR Aggregate.apply_event (Aggregate.blank cls) events
  = foldR Aggregate.apply_event {| agg_type := cls; agg_dict := ∅ |} events.
Proof. reflexivity. Qed.

(** X7.  Dispatch is by the exact class of the event.  If the events
    before it replay, an event whose own class has no handler aborts the
    replay with a [KeyError] naming that class, also when the event is
    an instance of a subclass of a handled class, such as a subclass of
    the creation event that passed the first-event check. *)
Theorem unhandled_event_aborts (cls : AggregateClass)
    (before after : list EventBase) (event : EventBase) (d : payload)
    (Hfirst : forall first,
        head (before ++ [event]) = Some first ->
        isinstance first (agg_create cls) = true)
    (Hbefore : replays cls ∅ before d)
    (Hunhandled : agg_events cls !! ev_name (ev_type event) = None) :
  Aggregate.from_events cls (before ++ event :: after)
  = Raise (KeyError (ev_name (ev_type event))).
Proof.
  assert (Hfold : foldR Aggregate.apply_event (Aggregate.blank cls)
                    (before ++ event :: after)
                  = Raise (KeyError (ev_name (ev_type event)))).
  { rewrite foldR_app, foldR_apply_event_blank.
    rewrite (foldR_apply_event_replays cls ∅ before d Hbefore). simpl.
    unfold Aggregate.apply_event at 1. simpl. rewrite Hunhandled. reflexivity. }
  unfold Aggregate.from_events.
  destruct before as [|first before]; simpl in *.
  - rewrite (Hfirst event eq_refl). exact Hfold.
  - rewrite (Hfirst first eq_refl). exact Hfold.
Qed.

Lemma unhandled_event_aborts_witness :
  Aggregate.from_events Account [created_v2_a1; renamed_a1]
  = Raise (KeyError "CreatedV2").
Proof.
  apply (unhandled_event_aborts Account [] [renamed_a1] created_v2_a1 ∅).
  - intros first [= <-]. vm_compute. reflexivity.
  - constructor.
  - vm_compute. reflexivity.
Defined.

(** ** Class definition *)

(** X8.  [AggregateMeta.__init__] accepts a class definition exactly
    when the class is a mixin, or its id field name is non-empty and in
    the schema, a creation event is declared and has a handler, and
    [load_events] is defined, not abstract and callable; the error of a
    rejected definition names the class. *)
Theorem aggregate_definition_accepted (cls : class_definition) :
  (AggregateMeta_init cls = None <->
   def_mixin cls = true
   \/ (def_agg_id cls <> EmptyString
       /\ def_agg_id cls ∈ def_schema cls
       /\ (exists create handler_name,
              def_agg_create cls = Some create
              /\ def_agg_events cls !! ev_name create = Some handler_name)
       /\ def_load_events cls = LoadCallable))
  /\ (forall agg_name problem,
        AggregateMeta_init cls = Some (AggregateDefinitionError agg_name problem) ->
        agg_name = def_name cls /\ def_mixin cls = false).
Proof.
  unfold AggregateMeta_init, _validate_aggregate_id, _validate_creation_event,
    _validate_load_events_method.
  destruct (def_mixin cls); simpl.
  { split; [split; auto | discriminate]. }
  destruct (bool_decide_reflect (def_agg_id cls = EmptyString)) as [Hid|Hid]; simpl.
  { split; [split; [discriminate | intros [|[? _]]; done] | by intros ?? [= <- _]]. }
  destruct (bool_decide_reflect (def_agg_id cls ∈ def_schema cls)) as [Hin|Hin]; simpl.
  2: { split; [split; [discriminate | intros [|(_ & ? & _)]; done] | by intros ?? [= <- _]]. }
  destruct (def_agg_create cls) as [create|]; simpl.
  2: { split; [split; [discriminate | intros [|(_ & _ & (? & ? & ? & _) & _)]; done]
              | by intros ?? [= <- _]]. }
  destruct (bool_decide_reflect (ev_name create ∈ dom (def_agg_events cls)))
    as [Hh|Hh]; simpl.
  2: { split; [split; [discriminate|] | by intros ?? [= <- _]].
       intros [|(_ & _ & (c & hn & [= <-] & Hl) & _)]; [done|].
       destruct Hh. apply elem_of_dom. eauto. }
  apply elem_of_dom in Hh as [hn Hhn].
  destruct (def_load_events cls); simpl;
    (split; [split; [try discriminate | intros [|(_ & _ & _ & ?)]; done]
            | try discriminate; by intros ?? [= <- _]]).
  intros _. right. eauto 10.
Qed.

Lemma set_names_cons h handlers m :
  set_names (h :: handlers) m = set_names handlers (<[ev_name h.2 := h.1]> m).
Proof. reflexivity. Qed.

Lemma set_names_app handlers1 handlers2 m :
  set_names (handlers1 ++ handlers2) m = set_names handlers2 (set_names handlers1 m).
Proof. unfold set_names. apply fold_left_app. Qed.

(** X9.  After the handlers of a class body have been named, the table
    maps an event class to the last handler the body declares for it,
    and is unchanged for an event class the body declares none for; so a
    body that declares a handler for its creation event passes the
    creation-event check. *)
Theorem set_names_last_wins (handlers : list (string * EventClass))
    (agg_events : gmap string string) :
  (forall before name evt_class after,
      handlers = before ++ (name, evt_class) :: after ->
      Forall (fun h => ev_name h.2 <> ev_name evt_class) after ->
      set_names handlers agg_events !! ev_name evt_class = Some name)
  /\ (forall key,
        Forall (fun h => ev_name h.2 <> key) handlers ->
        set_names handlers agg_events !! key = agg_events !! key)
  /\ (forall name evt_class cls,
        (name, evt_class) ∈ handlers ->
        def_agg_create cls = Some evt_class ->
        def_agg_events cls = set_names handlers agg_events ->
        _validate_creation_event cls = None).
Proof.
  assert (Hkeep : forall hs m key,
             Forall (fun h => ev_name h.2 <> key) hs ->
             set_names hs m !! key = m !! key).
  { induction hs as [|h hs IH]; intros m key Hf; [reflexivity|].
    apply Forall_cons_1 in Hf as [Hh Hf]. rewrite set_names_cons, IH by done.
    by apply lookup_insert_ne. }
  assert (Hlast : forall before name evt_class after,
             handlers = before ++ (name, evt_class) :: after ->
             Forall (fun h => ev_name h.2 <> ev_name evt_class) after ->
             set_names handlers agg_events !! ev_name evt_class = Some name).
  { intros before name evt_class after -> Hafter.
    rewrite set_names_app, set_names_cons, Hkeep by done. simpl.
    apply lookup_insert_eq. }
  split; [exact Hlast|]. split; [intros key; apply Hkeep|].
  intros name evt_class cls Hin Hcreate Hevents.
  assert (Hsome : is_Some (set_names handlers agg_events !! ev_name evt_class)).
  { clear Hlast Hcreate Hevents Hkeep.
    induction handlers as [|h hs IH] using rev_ind; [by apply elem_of_nil in Hin|].
    rewrite set_names_app. simpl.
    destruct (decide (ev_name h.2 = ev_name evt_class)) as [Heq|Hne].
    - rewrite Heq, lookup_insert_eq. eauto.
    - rewrite lookup_insert_ne by done. apply IH.
      apply elem_of_app in Hin as [Hin|Hin]; [exact Hin|].
      apply list_elem_of_singleton in Hin. subst h. simpl in Hne. done. }
  unfold _validate_creation_event. rewrite Hcreate, Hevents.
  rewrite bool_decide_eq_true_2; [reflexivity|]. by apply elem_of_dom.
Qed.

Lemma aggregate_definition_accepted_witness :
  AggregateMeta_init Account_definition = None.
Proof.
  apply (proj1 (aggregate_definition_accepted Account_definition)).
  right. split; [discriminate|]. split; [set_solver|].
  split; [|reflexivity]. exists Created, "on_created".
  split; vm_compute; reflexivity.
Defined.

Lemma set_names_last_wins_witness :
  set_names [("on_created", Created); ("on_opened", Created); ("on_renamed", Renamed)] ∅
    !! "Created"
  = Some "on_opened".
Proof.
  apply (proj1 (set_names_last_wins
                  [("on_created", Created); ("on_opened", Created);
                   ("on_renamed", Renamed)] ∅)
           [("on_created", Created)] "on_opened" Created [("on_renamed", Renamed)]).
  - reflexivity.
  - repeat constructor. simpl. discriminate.
Defined.

(** ** The event registry, continued *)

(** X10.  A class that [EventMeta.__new__] has registered can be
    constructed by name: [construct_named] returns an instance of
    exactly that class, with the fields the schema layer builds, and the
    instance is an instance of every base the class was declared with;
    a name no class was registered under raises [KeyError]. *)
Theorem construct_after_new
    (schema_init : EventClass -> payload -> result payload)
    (name : string) (bases : list EventClass) (reg reg' : gmap string EventClass)
    (c : EventClass) (args fields : payload)
    (Hnew : EventMeta.new name bases reg = (Ok c, reg'))
    (Hinit : schema_init c args = Ok fields) :
  EventMeta.construct_named schema_init reg' name args
  = Ok {| ev_type := c; ev_fields := fields |}
  /\ (forall base,
        base ∈ bases ->
        isinstance {| ev_type := c; ev_fields := fields |} base = true)
  /\ isinstance {| ev_type := c; ev_fields := fields |} c = true
  /\ (forall other,
        other <> name -> reg !! other = None ->
        EventMeta.construct_named schema_init reg' other args = Raise (KeyError other)).
Proof.
  unfold EventMeta.new in Hnew. case_bool_decide as Hin; [discriminate|].
  injection Hnew as <- <-. split; [|split; [|split]].
  - unfold EventMeta.construct_named. rewrite lookup_insert_eq, Hinit. reflexivity.
  - intros base Hbase. unfold isinstance. simpl.
    apply orb_true_iff. right. apply bool_decide_eq_true.
    apply list_elem_of_In, in_flat_map. exists base.
    split; [by apply list_elem_of_In | by left].
  - unfold isinstance. simpl. by rewrite bool_decide_eq_true_2.
  - intros other Hne Hnone. unfold EventMeta.construct_named.
    rewrite lookup_insert_ne by done. by rewrite Hnone.
Qed.

Lemma construct_after_new_witness :
  EventMeta.construct_named (fun _ args => Ok args)
    (EventMeta.new "CreatedV2" [Created] sample_registry).2 "CreatedV2"
    (<["id" := VStr "a1"]> ∅)
  = Ok created_v2_a1.
Proof.
  apply (proj1 (construct_after_new (fun _ args => Ok args) "CreatedV2" [Created]
                  sample_registry _ CreatedV2
                  (<["id" := VStr "a1"]> ∅) (<["id" := VStr "a1"]> ∅)
                  eq_refl eq_refl)).
Defined.

(** ** Compiled fragments *)

Lemma append_assoc (a b c : string) : (a +:+ b) +:+ c = a +:+ (b +:+ c).
Proof.
  induction a as [|x a IH]; [reflexivity|].
  change (String x ((a +:+ b) +:+ c) = String x (a +:+ (b +:+ c))).
  by rewrite IH.
Qed.

Lemma smart_query_supported self field c val :
  supported val = true ->
  _smart_query self field (oper_of c) val
  = Ok (render (leaf_expr self c val), leaf_params field val).
Proof.
  unfold supported, _smart_query, leaf_expr, leaf_params.
  destruct val; simpl; try discriminate; reflexivity.
Qed.

Lemma smart_query_not_supported self field oper val :
  supported val = false ->
  _smart_query self field oper val
  = Raise (RuntimeError ("unsupported value type " +:+ type_name val)).
Proof.
  intros H. apply smart_query_unsupported.
  - unfold supported in H. by apply orb_false_iff in H as [H _].
  - intros d ->. discriminate.
Qed.

Lemma one_of_loop_supported self field options exprs params :
  forallb supported options = true ->
  one_of_loop self field options exprs params
  = Ok (exprs ++ map (fun v => render (leaf_expr self P.CEq v)) options,
        params ++ concat (map (leaf_params field) options)).
Proof.
  revert exprs params. induction options as [|opt rest IH]; intros exprs params H; simpl.
  - by rewrite !app_nil_r.
  - simpl in H. apply andb_true_iff in H as [Ho Hr].
    change "=" with (oper_of P.CEq). rewrite smart_query_supported by done.
    simpl. rewrite IH by done. by rewrite <- !app_assoc.
Qed.

Lemma visit_field_predicate_supported self name fpred :
  field_supported fpred = true ->
  visit_field_predicate self name fpred
  = Ok (None, Some (render (field_expr self fpred)), Some (field_params name fpred)).
Proof.
  destruct fpred; simpl; intros H.
  - unfold on_eq, on_compare. change "=" with (oper_of P.CEq).
    by rewrite smart_query_supported.
  - unfold on_not_eq, on_compare. change "<>" with (oper_of P.CNotEq).
    by rewrite smart_query_supported.
  - unfold on_less, on_compare. change "<" with (oper_of P.CLess).
    by rewrite smart_query_supported.
  - unfold on_more, on_compare. change ">" with (oper_of P.CMore).
    by rewrite smart_query_supported.
  - unfold on_less_eq, on_compare. change "<=" with (oper_of P.CLessEq).
    by rewrite smart_query_supported.
  - unfold on_more_eq, on_compare. change ">=" with (oper_of P.CMoreEq).
    by rewrite smart_query_supported.
  - apply andb_true_iff in H as [Hl Hu]. unfold on_between.
    change ">=" with (oper_of P.CMoreEq). change "<=" with (oper_of P.CLessEq).
    rewrite !smart_query_supported by done. simpl.
    by rewrite append_assoc, append_assoc.
  - unfold on_one_of. rewrite one_of_loop_supported by done. simpl.
    by rewrite map_map.
Qed.

Lemma lowers_to_supported self fields :
  forallb (fun nf => field_supported nf.2) fields = true ->
  lowers_to self fields
    (map (fun nf => (render (field_expr self nf.2), field_params nf.1 nf.2)) fields).
Proof.
  induction fields as [|[name fpred] fields IH]; intros H; [constructor|].
  simpl in H. apply andb_true_iff in H as [Hf Hr].
  constructor; [|by apply IH]. simpl. by apply visit_field_predicate_supported.
Qed.

Lemma repeat_placeholders {A} (l : list A) (ph : string) :
  map (fun _ => ph) l = repeat ph (length l).
Proof. induction l as [|x l IH]; simpl; [reflexivity | by rewrite IH]. Qed.

Lemma visit_predicate_supported self pred :
  pred_supported pred = true ->
  visit_predicate self pred
  = Ok (None, Some (render (expr_of self pred)), Some (params_of pred)).
Proof.
  destruct pred as [types|fields]; simpl; intros H.
  - unfold on_is, _ph. rewrite repeat_placeholders.
    rewrite (map_ext _ (fun t => PStr (P.type_ref_name t))) by (by intros []).
    reflexivity.
  - unfold on_where. rewrite (where_loop_Ok _ _ [] [] _ (lowers_to_supported self fields H)).
    simpl. by rewrite !map_map.
Qed.

Lemma sql_bind_And es ps :
  sql_bind (SqlAnd es) ps = ('(cs, rest) ← sql_bind_all es ps ; Some (CAnd cs, rest)).
Proof. reflexivity. Qed.

Lemma sql_bind_Or es ps :
  sql_bind (SqlOr es) ps = ('(cs, rest) ← sql_bind_all es ps ; Some (COr cs, rest)).
Proof. reflexivity. Qed.

Lemma sql_bind_leaf self field c val rest :
  supported val = true ->
  sql_bind (leaf_expr self c val) (leaf_params field val ++ rest)
  = Some (leaf_cond self field c val, rest).
Proof. destruct val; simpl; try discriminate; reflexivity. Qed.

Lemma sql_bind_all_leaves self field options rest :
  forallb supported options = true ->
  sql_bind_all (map (leaf_expr self P.CEq) options)
    (concat (map (leaf_params field) options) ++ rest)
  = Some (map (leaf_cond self field P.CEq) options, rest).
Proof.
  induction options as [|opt options IH]; intros H; [reflexivity|].
  simpl in H. apply andb_true_iff in H as [Ho Hr].
  cbn [map concat sql_bind_all]. rewrite <- app_assoc, sql_bind_leaf by done.
  simpl. rewrite IH by done. reflexivity.
Qed.

Lemma sql_bind_field self name fpred rest :
  field_supported fpred = true ->
  sql_bind (field_expr self fpred) (field_params name fpred ++ rest)
  = Some (field_cond self name fpred, rest).
Proof.
  destruct fpred; cbn [field_supported field_expr field_params field_cond]; intros H;
    try (by apply sql_bind_leaf).
  - apply andb_true_iff in H as [Hl Hu].
    rewrite sql_bind_And. cbn [sql_bind_all].
    rewrite <- app_assoc, sql_bind_leaf by done. simpl.
    rewrite sql_bind_leaf by done. reflexivity.
  - rewrite sql_bind_Or, sql_bind_all_leaves by done. reflexivity.
Qed.

Lemma sql_bind_all_fields self fields rest :
  forallb (fun nf => field_supported nf.2) fields = true ->
  sql_bind_all (map (fun nf => field_expr self nf.2) fields)
    (concat (map (fun nf => field_params nf.1 nf.2) fields) ++ rest)
  = Some (map (fun nf => field_cond self nf.1 nf.2) fields, rest).
Proof.
  induction fields as [|[name fpred] fields IH]; intros H; [reflexivity|].
  simpl in H. apply andb_true_iff in H as [Hf Hr].
  cbn [map concat sql_bind_all fst snd]. rewrite <- app_assoc, sql_bind_field by done.
  simpl. rewrite IH by done. reflexivity.
Qed.

Lemma mapM_param_str (names : list string) :
  mapM param_str (map PStr names) = Some names.
Proof.
  apply mapM_Some_2. induction names as [|n names IH]; constructor; done.
Qed.

Lemma sql_bind_supported (self : PostgreSQLSimplifier.t) (pred : P.Predicate) :
  pred_supported pred = true ->
  sql_bind (expr_of self pred) (params_of pred) = Some (cond_of self pred, []).
Proof.
  intros Hsupported.
  destruct pred as [types|fields]; cbn [expr_of params_of cond_of].
  - cbn [sql_bind].
    assert (Hlen : length (map (fun t => PStr (P.type_ref_name t)) types) = length types)
      by apply length_map.
    rewrite bool_decide_eq_true_2 by lia.
    rewrite take_ge, drop_ge by lia.
    rewrite <- (map_map P.type_ref_name PStr), mapM_param_str. reflexivity.
  - rewrite sql_bind_And.
    rewrite <- (app_nil_r (concat _)), sql_bind_all_fields by done. reflexivity.
Qed.

(** X11.  A predicate all of whose comparison values are primitive
    scalars or timestamps compiles, with no residual, to the text of an
    expression whose placeholders the returned parameters bind exactly:
    in order, each of the kind its placeholder expects, none left
    over. *)
Theorem compiled_fragment_binds (self : PostgreSQLSimplifier.t) (pred : P.Predicate)
    (Hsupported : pred_supported pred = true) :
  visit_predicate self pred
  = Ok (None, Some (render (expr_of self pred)), Some (params_of pred))
  /\ sql_bind (expr_of self pred) (params_of pred) = Some (cond_of self pred, []).
Proof.
  split; [by apply visit_predicate_supported | by apply sql_bind_supported].
Qed.

Lemma compiled_fragment_binds_witness :
  sql_bind
    (SqlAnd [SqlAnd [SqlJson "event_data" ">="; SqlJson "event_data" "<="];
             SqlJson "event_data" "="])
    [PStr "amount"; PJson (VInt 10); PStr "amount"; PJson (VInt 20);
     PStr "owner"; PJson (VStr "ann")]
  = Some (CAnd [CAnd [CJson "event_data" "amount" ">=" (VInt 10);
                      CJson "event_data" "amount" "<=" (VInt 20)];
                CJson "event_data" "owner" "=" (VStr "ann")], []).
Proof.
  apply (proj2 (compiled_fragment_binds (init "event_type" "event_data" None)
                  (P.Where [("amount", P.Between (VInt 10) (VInt 20));
                            ("owner", P.Eq (VStr "ann"))]) eq_refl)).
Defined.

(** ** Push-down *)

Lemma existsb_map {A B} (f : B -> bool) (g : A -> B) (l : list A) :
  existsb f (map g l) = existsb (fun a => f (g a)) l.
Proof. induction l as [|a l IH]; simpl; [reflexivity | by rewrite IH]. Qed.

Lemma forallb_map {A B} (f : B -> bool) (g : A -> B) (l : list A) :
  forallb f (map g l) = forallb (fun a => f (g a)) l.
Proof. induction l as [|a l IH]; simpl; [reflexivity | by rewrite IH]. Qed.

Lemma forallb_ext_in {A} (f g : A -> bool) (l : list A) :
  (forall a, In a l -> f a = g a) -> forallb f l = forallb g l.
Proof.
  induction l as [|a l IH]; intros H; simpl; [reflexivity|].
  rewrite (H a) by (by left). rewrite IH; [reflexivity|].
  intros a' Ha'. apply H. by right.
Qed.

Lemma existsb_ext_in {A} (f g : A -> bool) (l : list A) :
  (forall a, In a l -> f a = g a) -> existsb f l = existsb g l.
Proof.
  induction l as [|a l IH]; intros H; simpl; [reflexivity|].
  rewrite (H a) by (by left). rewrite IH; [reflexivity|].
  intros a' Ha'. apply H. by right.
Qed.

Section Pushdown.
Variable pg : backend.
Variable compare : P.comparison -> option value -> value -> bool.
Hypothesis Hagrees : agrees pg compare.
Variable self : PostgreSQLSimplifier.t.

Lemma sql_holds_leaf field c val ty data :
  supported val = true ->
  sql_holds pg (leaf_cond self field c val) ty data = compare c (data !! field) val.
Proof.
  destruct Hagrees as [Hj Ht].
  destruct val; simpl; try discriminate; intros _; try (by apply Hj); apply Ht.
Qed.

Lemma sql_holds_field name fpred ty data :
  field_supported fpred = true ->
  sql_holds pg (field_cond self name fpred) ty data
  = P.call_field compare fpred (data !! name).
Proof.
  destruct fpred; cbn [field_supported field_cond P.call_field]; intros H;
    try (by apply sql_holds_leaf).
  - apply andb_true_iff in H as [Hl Hu]. cbn [sql_holds forallb].
    rewrite !sql_holds_leaf by done. by rewrite andb_true_r.
  - cbn [sql_holds]. rewrite existsb_map. apply existsb_ext_in.
    intros v Hv. apply sql_holds_leaf.
    rewrite forallb_forall in H. by apply H.
Qed.

Lemma sql_holds_pred pred ty data :
  pred_supported pred = true ->
  sql_holds pg (cond_of self pred) ty data = P.call compare pred ty data.
Proof.
  destruct pred as [types|fields]; cbn [pred_supported cond_of P.call sql_holds]; intros H.
  - by rewrite existsb_map.
  - rewrite forallb_map. apply forallb_ext_in. intros [name fpred] Hin. simpl.
    apply sql_holds_field. rewrite forallb_forall in H. by apply (H (name, fpred)).
Qed.

Lemma sql_valid_leaf field c val :
  sql_valid (type_field self) (data_field self) (leaf_cond self field c val) = true.
Proof. destruct val; simpl; by rewrite bool_decide_eq_true_2. Qed.

Lemma sql_valid_field name fpred :
  field_nonempty fpred = true ->
  sql_valid (type_field self) (data_field self) (field_cond self name fpred) = true.
Proof.
  destruct fpred; cbn [field_cond]; intros H; try apply sql_valid_leaf.
  - cbn [sql_valid forallb]. by rewrite !sql_valid_leaf.
  - destruct options as [|opt options]; [discriminate|].
    cbn [sql_valid map]. rewrite <- (map_cons (leaf_cond self name P.CEq)).
    rewrite forallb_map. apply forallb_forall. intros v _. apply sql_valid_leaf.
Qed.

Lemma sql_valid_pred pred :
  pred_nonempty pred = true ->
  sql_valid (type_field self) (data_field self) (cond_of self pred) = true.
Proof.
  destruct pred as [types|fields]; cbn [pred_nonempty cond_of]; intros H.
  - destruct types; [discriminate|]. simpl. by rewrite bool_decide_eq_true_2.
  - destruct fields as [|nf fields]; [discriminate|].
    cbn [sql_valid map]. rewrite <- (map_cons (fun nf => field_cond self nf.1 nf.2)).
    rewrite forallb_map. apply forallb_forall. intros [name fpred] Hin.
    apply sql_valid_field. rewrite forallb_forall in H. by apply (H (name, fpred)).
Qed.

End Pushdown.

Lemma filter_ext_all {A} (f g : A -> bool) (l : list A) :
  (forall a, f a = g a) -> List.filter f l = List.filter g l.
Proof.
  intros H. induction l as [|a l IH]; simpl; [reflexivity|].
  rewrite H, IH. reflexivity.
Qed.

(** The SELECT of a compiled predicate keeps the rows the predicate
    holds of. *)
Lemma select_where_compiled pg compare convert pred rows :
  agrees pg compare ->
  pred_supported pred = true ->
  pred_nonempty pred = true ->
  (let e := expr_of (init "event_type" "event_data" convert) pred in
   pg_parse pg (render e) = Some e) ->
  select_where pg "event_type" "event_data"
    (Some (render (expr_of (init "event_type" "event_data" convert) pred)))
    (Some (params_of pred)) rows
  = Ok (List.filter (fun r => P.call compare pred r.1 r.2) rows).
Proof.
  intros Hagrees Hs Hn Hparse. cbn zeta in Hparse.
  unfold select_where. rewrite Hparse. cbn [default].
  rewrite sql_bind_supported by done.
  assert (Hv : sql_valid "event_type" "event_data"
                 (cond_of (init "event_type" "event_data" convert) pred) = true)
    by exact (sql_valid_pred (init "event_type" "event_data" convert) pred Hn).
  rewrite Hv. f_equal. apply filter_ext_all. intros r. by apply sql_holds_pred.
Qed.

Lemma execute_SELECT_EVENTS_where E w rows where_clause params :
  tbl_events (view (db w)) = Some rows ->
  log_ok (events_seq (db w)) rows ->
  exists w',
    PostgreSQLStorage.execute E (SELECT_EVENTS where_clause params) w
    = (select_where (env_pg E) "event_type" "event_data" where_clause params
         (map (fun r => (er_event_type r, er_event_data r)) rows), w')
    /\ self w' = self w
    /\ committed (db w') = committed (db w)
    /\ transaction (db w') = transaction (db w).
Proof.
  intros Hr [Hs _]. destruct w as [sf [c tx es ss pl ex]].
  unfold PostgreSQLStorage.execute, execute_db, log_statement, view in *.
  cbn [db transaction committed executed self] in *.
  rewrite Hr. rewrite (order_by_sorted _ _ Hs). eauto.
Qed.

Lemma mapR_filter_decodes E (f : row -> bool) (g : EventBase -> bool)
    (rows : list event_row) (all : list EventBase) :
  Forall (decodes E) rows ->
  (forall evt, g evt = f (ev_name (ev_type evt), ev_fields evt)) ->
  mapR (fun r => EventMeta.construct_named (env_schema_init E) (env_by_name E) r.1 r.2)
       (map (fun r => (er_event_type r, er_event_data r)) rows) = Ok all ->
  mapR (fun r => EventMeta.construct_named (env_schema_init E) (env_by_name E) r.1 r.2)
       (List.filter f (map (fun r => (er_event_type r, er_event_data r)) rows))
  = Ok (List.filter g all).
Proof.
  intros Hd Hfg. revert all.
  induction Hd as [|r rows (evt & Hc & Hname & Hfields) _ IH]; intros all Hall.
  - simpl in *. by injection Hall as <-.
  - cbn [map mapR fst snd] in Hall. rewrite Hc in Hall. cbn [bind] in Hall.
    destruct (mapR _ (map _ rows)) as [evs|] eqn:Hm; cbn [bind] in Hall; [|discriminate].
    injection Hall as <-. cbn [map List.filter].
    rewrite (Hfg evt), Hname, Hfields.
    destruct (f (er_event_type r, er_event_data r)).
    + cbn [mapR fst snd]. rewrite Hc. cbn [bind]. rewrite (IH evs eq_refl). reflexivity.
    + by apply IH.
Qed.

(** X12.  Push-down: on an engine in use, for a predicate whose
    comparison values are primitive scalars or timestamps and whose
    lists are not empty, and a backend that reads the fragment as the
    expression it spells and compares as the in-process predicate does,
    [load_events] with the predicate returns exactly the events that
    the predicate, applied in-process, selects from what [load_events]
    without a predicate returns, in the same order. *)
Theorem load_events_pushdown (E : env) (w : world) (pred : P.Predicate)
    (all : list EventBase)
    (Hsettled : settled w)
    (Hpool : self_pool (self w) = true)
    (Hlog : log_ok (events_seq (db w)) (events_log w))
    (Hsupported : pred_supported pred = true)
    (Hnonempty : pred_nonempty pred = true)
    (Hparse : let e := expr_of (init "event_type" "event_data"
                                  (self_timestamp_convert (self w))) pred in
              pg_parse (env_pg E) (render e) = Some e)
    (Hagrees : agrees (env_pg E) (env_compare E))
    (Hdecodes : Forall (decodes E) (events_log w))
    (Hall : (PostgreSQLStorage.load_events E None w).1 = Ok all) :
  (PostgreSQLStorage.load_events E (Some pred) w).1
  = Ok (List.filter
          (fun evt => P.call (env_compare E) pred (ev_name (ev_type evt)) (ev_fields evt))
          all).
Proof.
  rewrite load_events_None_result in Hall by done.
  destruct (get_pool_settled E w Hsettled)
    as (w0 & Hp & _ & Htx & He & Hs & Hes & Hss & Hsame).
  rewrite (Hsame Hpool) in *. clear Hsame.
  unfold PostgreSQLStorage.load_events. rewrite (get_cursor_unfold E _ w w Hp).
  rewrite execute_BEGIN. cbn [snd].
  unfold PostgreSQLStorage.load_events_body, PostgreSQLStorage.compile_query.
  unfold bindM at 1. unfold lift at 1. cbn [self].
  unfold PostgreSQLStorage.simplify, PostgreSQLStorage.cast_simplified_predicate.
  rewrite visit_predicate_supported by done. cbn [fst snd]. unfold bindM at 1.
  match goal with
  | |- context [PostgreSQLStorage.execute E (SELECT_EVENTS ?wc ?ps) ?w1] =>
      destruct (execute_SELECT_EVENTS_where E w1 (events_log w) wc ps) as (w' & Hx & _)
  end.
  { cbn [db transaction]. unfold view. cbn [transaction]. unfold view. by rewrite Htx. }
  { exact Hlog. }
  rewrite Hx.
  rewrite (select_where_compiled (env_pg E) (env_compare E) _ pred _ Hagrees
             Hsupported Hnonempty Hparse).
  unfold lift. rewrite load_events_rows_None.
  rewrite (mapR_filter_decodes E _
             (fun evt => P.call (env_compare E) pred (ev_name (ev_type evt))
                           (ev_fields evt))
             (events_log w) all Hdecodes (fun _ => eq_refl) Hall).
  reflexivity.
Qed.

Lemma load_events_pushdown_witness :
  (PostgreSQLStorage.load_events int_env (Some between_10_20) deposits_world).1
  = Ok [deposited 15].
Proof.
  rewrite (load_events_pushdown int_env deposits_world between_10_20
             [deposited 5; deposited 15; deposited 25]).
  - vm_compute. reflexivity.
  - split; [reflexivity|]. intros _. split; eexists; reflexivity.
  - reflexivity.
  - split.
    + repeat constructor; simpl; lia.
    + repeat constructor; simpl; lia.
  - reflexivity.
  - reflexivity.
  - vm_compute. reflexivity.
  - split.
    + intros c stored val _. destruct c; reflexivity.
    + intros convert c stored d. destruct stored as [[]|]; reflexivity.
  - repeat constructor.
    + exists (deposited 5). repeat split; vm_compute; reflexivity.
    + exists (deposited 15). repeat split; vm_compute; reflexivity.
    + exists (deposited 25). repeat split; vm_compute; reflexivity.
  - vm_compute. reflexivity.
Defined.

(** ** Predicates that do not compile *)

Lemma smart_query_Ok_supported self field oper val r :
  _smart_query self field oper val = Ok r -> supported val = true.
Proof.
  intros H. destruct (supported val) eqn:Hs; [reflexivity|].
  rewrite smart_query_not_supported in H by done. discriminate.
Qed.

Lemma one_of_loop_Ok_supported self field options exprs params r :
  one_of_loop self field options exprs params = Ok r ->
  forallb supported options = true.
Proof.
  revert exprs params. induction options as [|opt rest IH]; intros exprs params; simpl.
  - reflexivity.
  - destruct (_smart_query self field "=" opt) as [q|] eqn:Hq; simpl; [|discriminate].
    intros H. rewrite (smart_query_Ok_supported _ _ _ _ _ Hq). by eapply IH.
Qed.

Lemma visit_field_predicate_Ok_supported self name fpred r :
  visit_field_predicate self name fpred = Ok r -> field_supported fpred = true.
Proof.
  destruct fpred; simpl;
    try (unfold on_eq, on_not_eq, on_less, on_more, on_less_eq, on_more_eq, on_compare;
         intros H; apply bind_Ok in H as (q & Hq & _);
         by eapply smart_query_Ok_supported).
  - unfold on_between. intros H.
    apply bind_Ok in H as (low & Hl & H). apply bind_Ok in H as (hi & Hh & _).
    rewrite (smart_query_Ok_supported _ _ _ _ _ Hl).
    by rewrite (smart_query_Ok_supported _ _ _ _ _ Hh).
  - unfold on_one_of. intros H. apply bind_Ok in H as (ep & He & _).
    by eapply one_of_loop_Ok_supported.
Qed.

Lemma visit_predicate_not_supported self pred :
  pred_supported pred = false ->
  exists msg, visit_predicate self pred = Raise (RuntimeError msg).
Proof.
  destruct pred as [types|fields]; simpl; [discriminate|]. intros H.
  unfold on_where.
  destruct (where_loop_inv self fields [] []) as [[subs Hs]|[msg Hm]].
  - exfalso. assert (forallb (fun nf => field_supported nf.2) fields = true) as Ht.
    { clear H. induction Hs as [|[name fpred] sub fields subs Hv _ IH]; [reflexivity|].
      simpl in *. rewrite (visit_field_predicate_Ok_supported _ _ _ _ Hv). exact IH. }
    congruence.
  - exists msg. by rewrite Hm.
Qed.

(** X13.  [load_events] with a predicate that compares with a value that
    is neither a primitive scalar nor a timestamp fails before anything
    is read: it raises the simplifier's [RuntimeError], the only
    statements after the pool set-up are BEGIN and ROLLBACK, so no
    SELECT is sent, and both tables are as they were. *)
Theorem load_events_unsupported (E : env) (w : world) (pred : P.Predicate)
    (Hsettled : settled w)
    (Hunsupported : pred_supported pred = false) :
  exists msg w0 w',
    PostgreSQLStorage.get_pool E w = (Ok tt, w0)
    /\ PostgreSQLStorage.load_events E (Some pred) w = (Raise (RuntimeError msg), w')
    /\ executed (db w') = executed (db w0) ++ [BEGIN; ROLLBACK]
    /\ transaction (db w') = None
    /\ events_log w' = events_log w
    /\ snapshot_rows w' = snapshot_rows w.
Proof.
  destruct (get_pool_settled E w Hsettled)
    as (w0 & Hp & _ & Htx & He & Hs & _).
  destruct (visit_predicate_not_supported
              (init "event_type" "event_data" (self_timestamp_convert (self w0)))
              pred Hunsupported) as [msg Hm].
  exists msg, w0. eexists. split; [exact Hp|].
  unfold PostgreSQLStorage.load_events. rewrite (get_cursor_unfold E _ w w0 Hp).
  rewrite execute_BEGIN. cbn [snd].
  unfold PostgreSQLStorage.load_events_body, PostgreSQLStorage.compile_query.
  unfold bindM at 1. unfold lift at 1. cbn [self].
  unfold PostgreSQLStorage.simplify, PostgreSQLStorage.cast_simplified_predicate.
  rewrite Hm. cbn [is_Exception]. rewrite execute_ROLLBACK. cbn [snd].
  split; [reflexivity|].
  unfold events_log, snapshot_rows. cbn [db executed transaction committed].
  rewrite <- app_assoc, He, Hs. done.
Qed.

Lemma load_events_unsupported_witness :
  exists w',
    PostgreSQLStorage.load_events (sample_env no_where_backend)
      (Some (P.Where [("owner", P.Eq VNone)])) one_event_world
    = (Raise (RuntimeError "unsupported value type NoneType"), w')
    /\ executed (db w') = [BEGIN; ROLLBACK].
Proof.
  destruct (load_events_unsupported (sample_env no_where_backend) one_event_world
              (P.Where [("owner", P.Eq VNone)]))
    as (msg & w0 & w' & Hp & Hl & Hx & _).
  - split; [reflexivity|]. intros _. split; eexists; reflexivity.
  - reflexivity.
  - exists w'. vm_compute in Hp. injection Hp as <-.
    assert (Hmsg : msg = "unsupported value type NoneType").
    { assert (H1 := f_equal fst Hl). vm_compute in H1. by injection H1 as <-. }
    subst msg. split; [exact Hl | exact Hx].
Defined.

(** ** What the encoder stores *)










(** ** Snapshots saved and loaded *)


















(** ** Replaying in two steps *)

(** X16.  Replay is incremental: the aggregate of a non-empty list of
    events followed by further events is the aggregate of the list with
    the further events applied to it in order, and fails as the replay
    of the list fails when that fails; the check of the first event and
    the blank instance belong to the first part only. *)
Theorem from_events_incremental (cls : AggregateClass) (events more : list EventBase)
    (Hevents : events <> []) :
  Aggregate.from_events cls (events ++ more)
  = (agg <- Aggregate.from_events cls events ;;
     foldR Aggregate.apply_event agg more).
Proof.
  destruct events as [|first rest]; [done|].
  change ((first :: rest) ++ more) with (first :: (rest ++ more)).
  unfold Aggregate.from_events.
  destruct (isinstance first (agg_create cls)); [|reflexivity].
  change (negb true) with false. cbv iota.
  apply (foldR_app _ _ (first :: rest) more).
Qed.

Lemma from_events_incremental_witness :
  Aggregate.from_events Account ([created_a1] ++ [renamed_a1])
  = (agg <- Aggregate.from_events Account [created_a1] ;;
     foldR Aggregate.apply_event agg [renamed_a1]).
Proof. apply from_events_incremental. discriminate. Defined.
